(** * mogptk: parameter store, cross-parameter derivation and data set access

    A shallow embedding of [src/mogptk/model.py], [src/mogptk/mosm.py] and
    [src/mogptk/dataset.py].

    - Python exceptions are the [Raise] branch of a small result monad.
    - A Python [dict] is a [gmap string _], a Python [list] is a [list],
      integers are [Z].
    - numpy arithmetic is a [Scalar] structure; its instance on [float]
      is IEEE binary64, what numpy computes with, with the platform's
      [exp], [cos], [.sum()] and [.dot()] as parameters. *)

From Stdlib Require Import ZArith List String Ascii Lia Floats.
From stdpp Require Import gmap strings list.

Set Default Proof Using "Type".
Local Open Scope Z_scope.

(** ** Exceptions and the result monad *)

Inductive exn : Set :=
| Exception      (* [raise Exception(...)] *)
| TypeError
| ValueError
| IndexError
| KeyError
| AttributeError
| NameError.

Inductive result (A : Type) : Type :=
| Ok (a : A)
| Raise (e : exn).
Arguments Ok {A} a.
Arguments Raise {A} e.

Global Instance result_ret : MRet result := λ A a, Ok a.
Global Instance result_bind : MBind result := λ A B f r,
  match r with
  | Ok a => f a
  | Raise e => Raise e
  end.

Definition raises {A} (r : result A) : Prop :=
  match r with Ok _ => False | Raise _ => True end.

Definition of_option {A} (o : option A) (e : exn) : result A :=
  match o with Some a => Ok a | None => Raise e end.

(** ** Python sequences *)

Module Py.

(** [l[i]] for a Python list: negative indices count from the end,
    anything outside [-len, len) raises [IndexError]. *)
Definition getitem {A} (l : list A) (i : Z) : result A :=
  let n := Z.of_nat (length l) in
  if (0 <=? i) && (i <? n) then of_option (l !! Z.to_nat i) IndexError
  else if (- n <=? i) && (i <? 0) then of_option (l !! Z.to_nat (n + i)) IndexError
  else Raise IndexError.

(** [l.remove(x)]: drops the first occurrence, [ValueError] when absent. *)
Fixpoint remove `{EqDecision A} (x : A) (l : list A) : result (list A) :=
  match l with
  | [] => Raise ValueError
  | y :: l' => if decide (x = y) then Ok l' else l'' ← remove x l'; Ok (y :: l'')
  end.

(** [range(n)] *)
Definition range (n : Z) : list nat := seq 0 (Z.to_nat n).

(** A [for] loop over a list whose body may raise and threads a state. *)
Fixpoint for_each {X S} (xs : list X) (body : X → S → result S) (s : S) : result S :=
  match xs with
  | [] => Ok s
  | x :: xs' => s' ← body x s; for_each xs' body s'
  end.

End Py.

(** ** dataset.py *)

(** The channel class [Data] lives in [data.py]; [DataSet] only reads its
    [name] attribute here, which is a string or [None]. *)
Class Channel (D : Type) := channel_name : D → option string.

Inductive index : Set :=
| IInt (i : Z)
| IStr (s : string).

Record DataSet (D : Type) := { channels : list D }.
Arguments channels {D} _.

Section DataSet.
Context `{Channel D}.

(** [DataSet.__len__] / [get_output_dims] *)
Definition get_output_dims (self : DataSet D) : Z := Z.of_nat (length (channels self)).

(** [DataSet.get_names] *)
Definition get_names (self : DataSet D) : list (option string) :=
  channel_name <$> channels self.

(** The [for channel in self.channels] search of [DataSet.get]. *)
Fixpoint find_name (s : string) (cs : list D) : option D :=
  match cs with
  | [] => None
  | c :: cs' => if decide (channel_name c = Some s) then Some c else find_name s cs'
  end.

(** [DataSet.get].  The final [raise ValueError("... '%d' ..." % (index))]
    formats its argument with [%d]; with a string argument the formatting
    itself raises [TypeError]. *)
Definition get (self : DataSet D) (idx : index) : result D :=
  match idx with
  | IInt i =>
      if i <? Z.of_nat (length (channels self))
      then Py.getitem (channels self) i
      else Raise ValueError
  | IStr s =>
      match find_name s (channels self) with
      | Some c => Ok c
      | None => Raise TypeError
      end
  end.

End DataSet.

(** ** Numbers *)

(** The arithmetic numpy performs on array elements.  The constants are the
    literals of the source: [0.] ([np.zeros]), [2], [-1/4], [-0.5], [np.pi].
    [f_sum] is the reduction [a.sum()] and [f_dot] the product [a.dot(b)] of
    two one-dimensional arrays of one length. *)
Class Scalar (F : Type) := {
  f_zero : F;
  f_two : F;
  f_neg_quarter : F;
  f_neg_half : F;
  f_pi : F;
  f_add : F → F → F;
  f_sub : F → F → F;
  f_mul : F → F → F;
  f_div : F → F → F;
  f_sqrt : F → F;
  f_exp : F → F;
  f_cos : F → F;
  f_sum : list F → F;
  f_dot : list F → list F → F
}.

(** What the platform supplies beside the IEEE operations: [np.exp] and
    [np.cos], which come from its libm, and the reductions [.sum()] and
    [.dot()], in which numpy and its BLAS choose the order of the additions
    (pairwise, in blocks) and decide the sign of a zero result.  Nothing is
    taken for granted about the four functions. *)
Record platform := Platform {
  np_exp : float → float;
  np_cos : float → float;
  np_sum : list float → float;
  np_dot : list float → list float → float
}.

(** IEEE binary64, the element type of the arrays.  Addition, subtraction,
    multiplication, division and square root are the correctly rounded
    primitives; the rest is the platform's. *)
Definition float_scalar (p : platform) : Scalar float := {|
  f_zero := 0%float;
  f_two := 2%float;
  f_neg_quarter := (-0.25)%float;
  f_neg_half := (-0.5)%float;
  f_pi := 0x1.921fb54442d18p+1%float;
  f_add := PrimFloat.add;
  f_sub := PrimFloat.sub;
  f_mul := PrimFloat.mul;
  f_div := PrimFloat.div;
  f_sqrt := PrimFloat.sqrt;
  f_exp := np_exp p;
  f_cos := np_cos p;
  f_sum := np_sum p;
  f_dot := np_dot p
|}.

Definition is_nan (x : float) : bool := negb (PrimFloat.eqb x x).
Definition is_inf (x : float) : bool :=
  PrimFloat.eqb x infinity || PrimFloat.eqb x neg_infinity.

(** ** numpy arrays *)

(** The parameter arrays are one-dimensional (one entry per channel) or
    two-dimensional (input dimension by channel); a two-dimensional array
    records its number of columns, so that shape [(0, m)] is representable. *)
Inductive ndarray (F : Type) : Type :=
| Arr1 (v : list F)
| Arr2 (ncols : nat) (rows : list (list F)).
Arguments Arr1 {F} v.
Arguments Arr2 {F} ncols rows.

Module Np.
Section Ops.
Context `{Scalar F}.

(** Elementwise binary operation on two one-dimensional arrays, with
    numpy's broadcasting of a length-one operand. *)
Definition ew (op : F → F → F) (a b : list F) : result (list F) :=
  if decide (length a = length b) then Ok (zip_with op a b)
  else match a, b with
       | [x], _ => Ok (op x <$> b)
       | _, [y] => Ok ((λ x, op x y) <$> a)
       | _, _ => Raise ValueError
       end.

(** [a.dot(b)] on one-dimensional arrays: the shapes have to agree. *)
Definition dot (a b : list F) : result F :=
  if decide (length a = length b) then Ok (f_dot a b) else Raise ValueError.

(** [a.sum()] *)
Definition sum (a : list F) : F := f_sum a.

(** [np.subtract.outer(a, b)]: entry [(i, j)] is [a[i] - b[j]]. *)
Definition subtract_outer (a b : list F) : list (list F) :=
  (λ x, (λ y, f_sub x y) <$> b) <$> a.

(** [A[:, i]] *)
Definition col (i : nat) (A : ndarray F) : result (list F) :=
  match A with
  | Arr1 _ => Raise IndexError
  | Arr2 c rows => if decide (i < c)%nat then Ok ((λ r, nth i r f_zero) <$> rows)
                   else Raise IndexError
  end.

(** [A[n, :]] *)
Definition row (n : nat) (A : ndarray F) : result (list F) :=
  match A with
  | Arr1 _ => Raise IndexError
  | Arr2 _ rows => of_option (rows !! n) IndexError
  end.

(** [a[i]] on a one-dimensional array.  (On a two-dimensional array
    numpy would hand back a row; the parameter schema never does that,
    and the model refuses it.) *)
Definition item (i : nat) (A : ndarray F) : result F :=
  match A with
  | Arr1 v => of_option (v !! i) IndexError
  | Arr2 _ _ => Raise ValueError
  end.

(** A one-dimensional array used as such.  (The parameter schema has no
    two-dimensional phase; numpy would broadcast one, the model refuses
    it.) *)
Definition as1d (A : ndarray F) : result (list F) :=
  match A with
  | Arr1 v => Ok v
  | Arr2 _ _ => Raise ValueError
  end.

(** Broadcasting of the right-hand side of a slice assignment whose
    target has [d] entries. *)
Definition broadcast_to {X} (d : nat) (v : list X) : result (list X) :=
  if decide (length v = d) then Ok v
  else match v with
       | [x] => Ok (replicate d x)
       | _ => Raise ValueError
       end.

Definition broadcast2_to (m : nat) (M : list (list F)) : result (list (list F)) :=
  rows ← broadcast_to m M; mapM (broadcast_to m) rows.

(** Reading entry [(i, j)] of a list of rows. *)
Definition at2 (M : list (list F)) (i j : nat) : F := nth j (nth i M []) f_zero.

End Ops.
End Np.

(** ** model.py *)

(** The per-component parameter dictionaries, [self.params]. *)
Abbreviation store F := (list (gmap string (ndarray F))).

(** The attributes [model.__init__] assigns.  [self.model] is [None] until
    [build] replaces it by the GPflow object, which is outside this model. *)
Record model (D F : Type) := Model {
  name : string;
  data : DataSet D;
  gp_model : option unit;
  Q : Z;
  params : store F;
  fixed_params : list string
}.
Arguments Model {D F}.
Arguments name {D F} _.
Arguments data {D F} _.
Arguments gp_model {D F} _.
Arguments Q {D F} _.
Arguments params {D F} _.
Arguments fixed_params {D F} _.

Section Model.
Context {D F : Type}.
Implicit Types self : model D F.

Definition with_params self (ps : store F) : model D F :=
  Model (name self) (data self) (gp_model self) (Q self) ps (fixed_params self).

Definition with_fixed_params self (fs : list string) : model D F :=
  Model (name self) (data self) (gp_model self) (Q self) (params self) fs.

Definition with_Q self (q : Z) : model D F :=
  Model (name self) (data self) (gp_model self) q (params self) (fixed_params self).

(** [model.__init__(self, name, data, Q)].  None of the three parameters
    has a default value: a call that leaves one out ([None] below) raises
    [TypeError] before the body runs. *)
Definition model_init (name : option string) (data : option (DataSet D)) (Q : option Z)
    : result (model D F) :=
  match name, data, Q with
  | Some name, Some data, Some Q => Ok (Model name data None Q [] [])
  | _, _, _ => Raise TypeError
  end.

(** [model.get_params] *)
Definition get_params self : store F := params self.

(** [model.set_param] *)
Definition set_param (q : Z) (key : string) (val : ndarray F) self : result (model D F) :=
  if (q <? 0) || (Z.of_nat (length (params self)) <=? q) then Raise Exception
  else
    pq ← Py.getitem (params self) q;
    if decide (key ∈ dom pq) then
      Ok (with_params self (<[Z.to_nat q := <[key := val]> pq]> (params self)))
    else Raise Exception.

(** [model.fix_params] *)
Definition fix_params (key : string) self : model D F :=
  with_fixed_params self (fixed_params self ++ [key]).

(** [model.unfix_params] *)
Definition unfix_params (key : string) self : result (model D F) :=
  fs ← Py.remove key (fixed_params self);
  Ok (with_fixed_params self fs).

(** The loop [for key in self.fixed_params: ... .trainable = False] of
    [model.build] switches off every listed name; a kernel parameter stays
    optimizable exactly when its name is not listed. *)
Definition trainable self (key : string) : bool :=
  bool_decide (key ∉ fixed_params self).

Definition optimizable self (names : list string) : list string :=
  filter (λ key, trainable self key = true) names.

End Model.

(** ** mosm.py *)

Section MOSM.
Context {D F : Type}.
Implicit Types self : model D F.

(** Reading [self.graph] (and [self.session]): [model.__init__] assigns
    no such attribute, only [model.build] does. *)
Definition graph self : result unit := Raise AttributeError.

(** [MOSM.__init__].  Its first statement calls
    [model.__init__(self, name, dataset)], two arguments for three
    parameters.  The kernel construction inside
    [with self.graph.as_default()] belongs to the GP engine and leaves
    the attributes modelled here alone. *)
Definition MOSM_init (dataset : DataSet D) (Q : Z) (name : string) : result (model D F) :=
  self ← model_init (Some name) (Some dataset) None;
  let self := with_Q self Q in
  _ ← graph self;
  Ok self.

(** The last statement of [MOSM.estimate_params]:
    [self.set_param(self.Q, 'noise', noise)]. *)
Definition estimate_params_noise (noise : ndarray F) self : result (model D F) :=
  set_param (Q self) "noise" noise self.

(** [self.get_output_dims()] and [self.get_input_dims()] with [self] a
    model.  The two methods are [DataSet]'s; [model] and [MOSM] define
    neither and have no [__getattr__], so the attribute lookup raises
    before anything is called. *)
Definition self_get_output_dims self : result nat := Raise AttributeError.
Definition self_get_input_dims self : result nat := Raise AttributeError.

(** The names [plt] and [mpl] in [mosm.py]: the module imports numpy,
    [model], [DataSet], the kernels and [plot_spectrum], and nothing of
    matplotlib. *)
Definition plt : result unit := Raise NameError.

End MOSM.

(** The dictionary [get_cross_params] returns.  An array of shape
    [(m, m, d, Q)] is read as a function of its four indices
    [i j n q]; one of shape [(m, m, Q)] as a function of [i j q]. *)
Record cross_params (F : Type) := CrossParams {
  covariance : nat → nat → nat → nat → F;
  mean : nat → nat → nat → nat → F;
  magnitude : nat → nat → nat → F;
  delay : nat → nat → nat → nat → F;
  phase : nat → nat → nat → F
}.
Arguments CrossParams {F}.
Arguments covariance {F} _.
Arguments mean {F} _.
Arguments magnitude {F} _.
Arguments delay {F} _.
Arguments phase {F} _.

Section CrossParams.
Context {D : Type} `{Scalar F}.
Implicit Types self : model D F.
Implicit Types cp : cross_params F.

(** [c[key]] on a parameter dictionary. *)
Definition getkey (c : gmap string (ndarray F)) (key : string) : result (ndarray F) :=
  of_option (c !! key) KeyError.

(** [self.params[q]] for [q] drawn from [range(Q)]. *)
Definition component self (q : nat) : result (gmap string (ndarray F)) :=
  of_option (params self !! q) IndexError.

(** [self.params[q][key]] *)
Definition param self (q : nat) (key : string) : result (ndarray F) :=
  c ← component self q; getkey c key.

(** [T[i, j, :, q] = v], the target slice having [d] entries. *)
Definition set_slice (d i j q : nat) (v : list F) (T : nat → nat → nat → nat → F)
    : result (nat → nat → nat → nat → F) :=
  v' ← Np.broadcast_to d v;
  Ok (λ i' j' n q',
        if decide (i' = i ∧ j' = j ∧ q' = q ∧ n < d)%nat then nth n v' f_zero
        else T i' j' n q').

(** [T[i, j, q] = x] *)
Definition set_entry (i j q : nat) (x : F) (T : nat → nat → nat → F)
    : nat → nat → nat → F :=
  λ i' j' q', if decide (i' = i ∧ j' = j ∧ q' = q) then x else T i' j' q'.

(** [T[:, :, q] = M], the target plane being [m] by [m]. *)
Definition set_plane (m q : nat) (M : list (list F)) (T : nat → nat → nat → F)
    : result (nat → nat → nat → F) :=
  M' ← Np.broadcast2_to m M;
  Ok (λ i j q',
        if decide (q' = q ∧ i < m ∧ j < m)%nat then Np.at2 M' i j
        else T i j q').

(** [T[:, :, n, q] = M] *)
Definition set_plane_at (m n q : nat) (M : list (list F)) (T : nat → nat → nat → nat → F)
    : result (nat → nat → nat → nat → F) :=
  M' ← Np.broadcast2_to m M;
  Ok (λ i j n' q',
        if decide (n' = n ∧ q' = q ∧ i < m ∧ j < m)%nat then Np.at2 M' i j
        else T i j n' q').

(** The body of the innermost loop of [get_cross_params] (lines 266-281). *)
Definition cross_body self (d q i j : nat) cp : result (cross_params F) :=
  var_i ← param self q "variance" ≫= Np.col i;
  var_j ← param self q "variance" ≫= Np.col j;
  mu_i ← param self q "mean" ≫= Np.col i;
  mu_j ← param self q "mean" ≫= Np.col j;
  w_i ← param self q "magnitude" ≫= Np.item i;
  w_j ← param self q "magnitude" ≫= Np.item j;
  sv ← Np.ew f_add var_i var_j;
  (* cross covariance *)
  vv ← Np.ew f_mul var_i var_j;
  cov ← Np.ew f_div (f_mul f_two <$> vv) sv;
  covariance' ← set_slice d i j q cov (covariance cp);
  (* cross mean *)
  dot_ij ← Np.dot var_i mu_j;
  dot_ji ← Np.dot var_j mu_i;
  let cross_mean_num := f_add dot_ij dot_ji in
  mean' ← set_slice d i j q (f_div cross_mean_num <$> sv) (mean cp);
  (* cross magnitude *)
  diff ← Np.ew f_sub mu_i mu_j;
  quot ← Np.ew f_div ((λ x, f_mul x x) <$> diff) sv;
  let exp_term := f_mul f_neg_quarter (Np.sum quot) in
  let magnitude' :=
    set_entry i j q (f_mul (f_mul w_i w_j) (f_exp exp_term)) (magnitude cp) in
  Ok (CrossParams covariance' mean' magnitude' (delay cp) (phase cp)).

(** The cross-delay statement of the loop over [n] (lines 287-288). *)
Definition delay_body self (m q n : nat) cp : result (cross_params F) :=
  delay_n_q ← param self q "delay" ≫= Np.row n;
  delay' ← set_plane_at m n q (Np.subtract_outer delay_n_q delay_n_q) (delay cp);
  Ok (CrossParams (covariance cp) (mean cp) (magnitude cp) delay' (phase cp)).

(** The body of the loop over [q] (lines 264-288). *)
Definition component_body self (m d q : nat) cp : result (cross_params F) :=
  cp ← Py.for_each (seq 0 m) (λ i, Py.for_each (seq 0 m) (λ j, cross_body self d q i j)) cp;
  (* cross phase *)
  phase_q ← param self q "phase" ≫= Np.as1d;
  phase' ← set_plane m q (Np.subtract_outer phase_q phase_q) (phase cp);
  let cp := CrossParams (covariance cp) (mean cp) (magnitude cp) (delay cp) phase' in
  Py.for_each (seq 0 d) (λ n, delay_body self m q n) cp.

(** Lines 253-290 of [MOSM.get_cross_params]: what the function does
    once [m] and [d] are bound, for given values of the two.  [np.zeros]
    refuses a negative dimension with [ValueError]. *)
Definition cross_params_loops (m d : nat) self : result (cross_params F) :=
  if Q self <? 0 then Raise ValueError
  else
    let zeros4 : nat → nat → nat → nat → F := λ _ _ _ _, f_zero in
    let zeros3 : nat → nat → nat → F := λ _ _ _, f_zero in
    Py.for_each (Py.range (Q self)) (component_body self m d)
      (CrossParams zeros4 zeros4 zeros3 zeros4 zeros3).

(** [MOSM.get_cross_params], from its first line: [m] and [d] are asked
    of [self] (lines 251-252).  The dictionary comes with the number [d] of
    input dimensions of its arrays, which a function of the indices does
    not record. *)
Definition get_cross_params self : result (nat * cross_params F) :=
  m ← self_get_output_dims self;
  d ← self_get_input_dims self;
  cross_params ← cross_params_loops m d self;
  Ok (d, cross_params).

(** [np.fill_diagonal(C, v)] on an [m] by [m] matrix. *)
Definition fill_diagonal (m : nat) (v : nat → F) (C : nat → nat → F) : nat → nat → F :=
  λ i j, if decide (i = j ∧ i < m)%nat then v i else C i j.

(** [C[i, j] = x] *)
Definition set_cell (i j : nat) (x : F) (C : nat → nat → F) : nat → nat → F :=
  λ i' j', if decide (i' = i ∧ j' = j) then x else C i' j'.

(** Lines 198-217 of [MOSM.plot_correlations]: the matrix
    [corr_coef_matrix] computed from the dictionary [cross_params], for
    [m] channels, arrays of [d] input dimensions and [Qn] components.  The
    slices [[:, :, 0, :]] need the input-dimension axis to be non-empty.
    [alpha.sum(2)] reduces every row [alpha[i, j, :]]; its entry [(i, i)] is
    read as [.sum()] of that row. *)
Definition corr_coef_matrix (m d Qn : nat) (cross_params : cross_params F)
    : result (nat → nat → F) :=
  if decide (d = 0)%nat then Raise IndexError
  else
    let mean := λ i j q, mean cross_params i j 0%nat q in
    let cov := λ i j q, covariance cross_params i j 0%nat q in
    let delay := λ i j q, delay cross_params i j 0%nat q in
    let magn := magnitude cross_params in
    let phase := phase cross_params in
    let alpha := λ i j q,
      f_div (magn i j q) (f_sqrt (f_mul (f_mul f_two f_pi) (cov i j q))) in
    (* np.diagonal(alpha.sum(2)) *)
    let diag := λ i, Np.sum (alpha i i <$> seq 0 Qn) in
    let corr_coef_matrix := fill_diagonal m diag (λ _ _, f_zero) in
    Ok (foldl (λ C i,
          foldl (λ C j,
            let C :=
              if decide (i ≠ j) then
                let corr := λ q,
                  f_mul
                    (f_exp (f_mul (f_mul f_neg_half (f_mul (delay i j q) (delay i j q)))
                                  (cov i j q)))
                    (f_cos (f_add (f_mul (delay i j q) (mean i j q)) (phase i j q))) in
                set_cell i j (Np.sum ((λ q, f_mul (alpha i j q) (corr q)) <$> seq 0 Qn)) C
              else C in
            let norm := f_mul (f_sqrt (diag i)) (f_sqrt (diag j)) in
            set_cell i j (f_div (C i j) norm) C)
          C (seq 0 m))
        corr_coef_matrix (seq 0 m)).

(** Lines 198-231 of [MOSM.plot_correlations]: the matrix, then the
    rendering, which starts with [plt.subplots()] (line 219).  Of the
    triple returned, the matrix is kept. *)
Definition matrix_and_figure (m d Qn : nat) (cross_params : cross_params F)
    : result (nat → nat → F) :=
  C ← corr_coef_matrix m d Qn cross_params;
  _ ← plt;
  Ok C.

(** [MOSM.plot_correlations], from its first line: [m] is asked of [self]
    (line 195) and the dictionary of [get_cross_params] (line 197). *)
Definition plot_correlations self : result (nat → nat → F) :=
  m ← self_get_output_dims self;
  shaped ← get_cross_params self;
  matrix_and_figure m shaped.1 (Z.to_nat (Q self)) shaped.2.

End CrossParams.

(** ** Reading a parameter store *)

(** Total readers used to state properties.  They answer [f_zero] where
    the store has no such entry. *)
Section Readers.
Context {D : Type} `{Scalar F}.
Implicit Types self : model D F.

(** [self.params[q][key]], when there is one. *)
Definition pval self (q : nat) (key : string) : option (ndarray F) :=
  c ← params self !! q; c !! key.

(** [A[i]] *)
Definition vec_at (A : option (ndarray F)) (i : nat) : F :=
  match A with
  | Some (Arr1 v) => nth i v f_zero
  | _ => f_zero
  end.

(** [A[n, i]] *)
Definition mat_at (A : option (ndarray F)) (n i : nat) : F :=
  match A with
  | Some (Arr2 _ rows) => nth i (nth n rows []) f_zero
  | _ => f_zero
  end.

(** The parameters in the index order of the specification:
    [variance[q, i, n]], [mean[q, i, n]], [delay[q, i, n]],
    [magnitude[q, i]], [phase[q, i]] for component [q], channel [i] and
    input dimension [n].  The arrays are stored input dimension first. *)
Definition variance_of self (q i n : nat) : F := mat_at (pval self q "variance") n i.
Definition mean_of self (q i n : nat) : F := mat_at (pval self q "mean") n i.
Definition delay_of self (q i n : nat) : F := mat_at (pval self q "delay") n i.
Definition magnitude_of self (q i : nat) : F := vec_at (pval self q "magnitude") i.
Definition phase_of self (q i : nat) : F := vec_at (pval self q "phase") i.

(** Shape [(m,)] *)
Definition is_vector (m : nat) (A : option (ndarray F)) : bool :=
  match A with
  | Some (Arr1 v) => bool_decide (length v = m)
  | _ => false
  end.

(** Shape [(d, m)] *)
Definition is_matrix (d m : nat) (A : option (ndarray F)) : bool :=
  match A with
  | Some (Arr2 c rows) =>
      bool_decide (c = m) && bool_decide (length rows = d)
      && forallb (λ r, bool_decide (length r = m)) rows
  | _ => false
  end.

(** The parameter schema of one mixture component for [m] channels and
    [d] input dimensions. *)
Definition component_ok (m d : nat) (c : option (gmap string (ndarray F))) : bool :=
  is_vector m (c ≫= (.!! "magnitude"))
  && is_matrix d m (c ≫= (.!! "mean"))
  && is_matrix d m (c ≫= (.!! "variance"))
  && is_vector m (c ≫= (.!! "phase"))
  && is_matrix d m (c ≫= (.!! "delay")).

(** A populated store: components [0 .. Q-1] follow the schema. *)
Definition well_shaped (m d : nat) self : bool :=
  (0 <=? Q self) && forallb (λ q, component_ok m d (params self !! q)) (Py.range (Q self)).

(** [key in self.params[q]] for an index inside the store. *)
Definition has_key self (q : Z) (key : string) : Prop :=
  ∃ pq, params self !! Z.to_nat q = Some pq ∧ key ∈ dom pq.

(** The closed forms of [get_cross_params], entry by entry. *)
Definition sv_at self (q i j n : nat) : F :=
  f_add (variance_of self q i n) (variance_of self q j n).

Definition covariance_at self (q i j n : nat) : F :=
  f_div (f_mul f_two (f_mul (variance_of self q i n) (variance_of self q j n)))
        (sv_at self q i j n).

(** The columns [variance[:, i]] and [mean[:, i]] of component [q], over
    [d] input dimensions. *)
Definition variance_col self (d q i : nat) : list F :=
  (λ n, variance_of self q i n) <$> seq 0 d.
Definition mean_col self (d q i : nat) : list F :=
  (λ n, mean_of self q i n) <$> seq 0 d.

(** [var_a.dot(mu_b)]: one number for all the input dimensions. *)
Definition var_dot_mean self (d q a b : nat) : F :=
  f_dot (variance_col self d q a) (mean_col self d q b).

Definition mean_at self (d q i j n : nat) : F :=
  f_div (f_add (var_dot_mean self d q i j) (var_dot_mean self d q j i))
        (sv_at self q i j n).

Definition magnitude_at self (d q i j : nat) : F :=
  f_mul (f_mul (magnitude_of self q i) (magnitude_of self q j))
        (f_exp (f_mul f_neg_quarter
           (f_sum ((λ n,
              f_div (f_mul (f_sub (mean_of self q i n) (mean_of self q j n))
                           (f_sub (mean_of self q i n) (mean_of self q j n)))
                    (sv_at self q i j n)) <$> seq 0 d)))).

Definition phase_at self (q i j : nat) : F :=
  f_sub (phase_of self q i) (phase_of self q j).

Definition delay_at self (q i j n : nat) : F :=
  f_sub (delay_of self q i n) (delay_of self q j n).

(** The cross-mean as the specification writes it, dimension by
    dimension. *)
Definition elementwise_mean self (q i j n : nat) : F :=
  f_div (f_add (f_mul (variance_of self q i n) (mean_of self q j n))
               (f_mul (variance_of self q j n) (mean_of self q i n)))
        (f_add (variance_of self q i n) (variance_of self q j n)).

(** [alpha = magn / np.sqrt(2 * np.pi * cov)] of [plot_correlations],
    read off a cross-parameter tensor. *)
Definition alpha_of (cp : cross_params F) (i j q : nat) : F :=
  f_div (magnitude cp i j q)
        (f_sqrt (f_mul (f_mul f_two f_pi) (covariance cp i j 0%nat q))).

(** [alpha.sum(2)[i, i]], the sum of [alpha] over the components. *)
Definition alpha_sum (Qn : nat) (cp : cross_params F) (i : nat) : F :=
  f_sum ((λ q, alpha_of cp i i q) <$> seq 0 Qn).

(** [agrees self m d Pc Pp Pd cp]: the tensor [cp] carries the closed
    forms wherever the loops have already written, namely on the triples
    [(q, i, j)] of [Pc] for covariance, mean and magnitude, on the
    components of [Pp] for the phase, and on the pairs [(q, n)] of [Pd] for
    the delay. *)
Definition agrees self (m d : nat)
    (Pc : nat → nat → nat → Prop) (Pp : nat → Prop) (Pd : nat → nat → Prop)
    (cp : cross_params F) : Prop :=
  (∀ q i j n, (i < m)%nat → (j < m)%nat → (n < d)%nat → Pc q i j →
     covariance cp i j n q = covariance_at self q i j n
     ∧ mean cp i j n q = mean_at self d q i j n)
  ∧ (∀ q i j, (i < m)%nat → (j < m)%nat → Pc q i j →
       magnitude cp i j q = magnitude_at self d q i j)
  ∧ (∀ q i j, (i < m)%nat → (j < m)%nat → Pp q →
       phase cp i j q = phase_at self q i j)
  ∧ (∀ q i j n, (i < m)%nat → (j < m)%nat → (n < d)%nat → Pd q n →
       delay cp i j n q = delay_at self q i j n).

End Readers.

(** The parameter names of the specification. *)
Definition recognized_names : list string :=
  ["magnitude"; "mean"; "variance"; "phase"; "delay"; "noise"]%string.

(** A property of the computation on binary64 numbers, on every
    platform. *)
Definition on_floats (P : platform → Prop) : Prop := ∀ p : platform, P p.

(** IEEE comparison with zero: true on [0.] and on [-0.]. *)
Definition is_zero (x : float) : bool := PrimFloat.eqb x 0%float.

(** A number that is neither [nan] nor an infinity. *)
Definition is_finite (x : float) : bool := negb (is_nan x) && negb (is_inf x).

(** What a statement may ask of the platform.  ISO C (Annex F) fixes
    [exp(+0) = exp(-0) = 1].  Whatever the order of its additions, a sum
    of zeros is a zero, the sum over a single number other than zero is
    that number, and a sum over numbers one of which is [nan] is [nan].
    The dot product of two arrays of one element is the product of the two
    elements, when that is not a zero. *)
Record numpy_laws (p : platform) : Prop := {
  exp_zero : ∀ z, is_zero z = true → np_exp p z = 1%float;
  sum_zeros : ∀ l, Forall (λ z, is_zero z = true) l → is_zero (np_sum p l) = true;
  sum_single : ∀ x, is_zero x = false → np_sum p [x] = x;
  sum_nan : ∀ l, nan ∈ l → np_sum p l = nan;
  dot_single : ∀ a b, is_zero (PrimFloat.mul a b) = false →
               np_dot p [a] [b] = PrimFloat.mul a b
}.

(** A platform that keeps the laws, to show that they can be kept
    together: sums and dot products add from left to right, starting from
    [0.]; the laws ask [exp] at zero only and [cos] nowhere, so that both
    may be constant here. *)
Definition left_to_right : platform := {|
  np_exp := λ _, 1%float;
  np_cos := λ _, 1%float;
  np_sum := foldl PrimFloat.add 0%float;
  np_dot := λ a b, foldl PrimFloat.add 0%float (zip_with PrimFloat.mul a b)
|}.

(** A property of the computation on binary64 numbers, on every platform
    that keeps these laws; [left_to_right] is one of them. *)
Definition on_numpy (P : platform → Prop) : Prop :=
  (∀ p : platform, numpy_laws p → P p) ∧ P left_to_right.

(** ** Stores used in examples *)

Global Instance string_channel : Channel string := Some.

(** One mixture component and the noise entry after it, for one channel
    and one input dimension. *)
Definition noise_model : model string float :=
  Model "MOSM" {| channels := ["A"%string] |} None 1
    [ {[ "magnitude" := Arr1 [1%float]; "mean" := Arr2 1 [[1%float]];
         "variance" := Arr2 1 [[1%float]]; "phase" := Arr1 [0%float];
         "delay" := Arr2 1 [[0%float]] ]};
      {[ "noise" := Arr1 [0%float] ]} ]
    [].

(** [model.__init__("MOSM", data, 1)] *)
Definition fresh_model : model string float :=
  Model "MOSM" {| channels := ["A"%string] |} None 1 [] [].

(** A model in which [variance] and [mean] are already fixed. *)
Definition fixed_model : model string float :=
  Model "MOSM" {| channels := ["A"%string] |} None 1 [] ["variance"; "mean"]%string.

(** Two channels, one input dimension, one component whose variance is
    zero on both channels. *)
Definition zero_variance_model : model string float :=
  Model "MOSM" {| channels := ["A"; "B"]%string |} None 1
    [ {[ "magnitude" := Arr1 [1; 1]%float; "mean" := Arr2 2 [[1; 3]%float];
         "variance" := Arr2 2 [[0; 0]%float]; "phase" := Arr1 [0; 0]%float;
         "delay" := Arr2 2 [[0; 0]%float] ]} ]
    [].

(** Two channels, two input dimensions, one component.  Rows are input
    dimensions, columns are channels: channel [0] has mean [(1, 2)],
    channel [1] has mean [(3, 4)], every variance is [1]. *)
Definition two_dim_model : model string float :=
  Model "MOSM" {| channels := ["A"; "B"]%string |} None 1
    [ {[ "magnitude" := Arr1 [1; 1]%float;
         "mean" := Arr2 2 [[1; 3]; [2; 4]]%float;
         "variance" := Arr2 2 [[1; 1]; [1; 1]]%float;
         "phase" := Arr1 [1; 3]%float;
         "delay" := Arr2 2 [[0.25; 1]; [2; 5]]%float ]} ]
    [].

(** One channel, one input dimension, one component: variance [0.1],
    the binary64 number [0x1.999999999999ap-4]. *)
Definition tenth_model : model string float :=
  Model "MOSM" {| channels := ["A"%string] |} None 1
    [ {[ "magnitude" := Arr1 [1%float]; "mean" := Arr2 1 [[1%float]];
         "variance" := Arr2 1 [[0x1.999999999999ap-4%float]]; "phase" := Arr1 [0%float];
         "delay" := Arr2 1 [[0%float]] ]} ]
    [].

(** One channel, one input dimension, one component: phase and delay are
    [inf]. *)
Definition unbounded_model : model string float :=
  Model "MOSM" {| channels := ["A"%string] |} None 1
    [ {[ "magnitude" := Arr1 [1%float]; "mean" := Arr2 1 [[1%float]];
         "variance" := Arr2 1 [[1%float]]; "phase" := Arr1 [infinity];
         "delay" := Arr2 1 [[infinity]] ]} ]
    [].

(** One channel, one input dimension, one component: magnitude [2]. *)
Definition loud_model : model string float :=
  Model "MOSM" {| channels := ["A"%string] |} None 1
    [ {[ "magnitude" := Arr1 [2%float]; "mean" := Arr2 1 [[1%float]];
         "variance" := Arr2 1 [[1%float]]; "phase" := Arr1 [0%float];
         "delay" := Arr2 1 [[0%float]] ]} ]
    [].

(** ** Laws of the arithmetic *)

(** What the symmetry of the cross parameters needs of the arithmetic:
    addition and multiplication commute, and the square of a difference
    does not depend on the order of its terms.  Binary64
    satisfies them on every platform. *)
Class ScalarLaws (F : Type) `{Scalar F} : Prop := {
  f_add_comm : ∀ a b : F, f_add a b = f_add b a;
  f_mul_comm : ∀ a b : F, f_mul a b = f_mul b a;
  f_sub_sq : ∀ a b : F, f_mul (f_sub a b) (f_sub a b) = f_mul (f_sub b a) (f_sub b a)
}.

(** Two binary64 numbers that differ at most in their sign. *)
Definition same_abs (x y : spec_float) : Prop := SFabs x = SFabs y.

Section CorrelationReaders.
Context `{Scalar F}.

(** [corr] of [plot_correlations] for the pair [(i, j)] and component
    [q], read off a cross-parameter tensor:
    [exp(-0.5 * delay**2 * cov) * cos(delay * mean + phase)]. *)
Definition corr_of (cp : cross_params F) (i j q : nat) : F :=
  f_mul
    (f_exp (f_mul (f_mul f_neg_half
                         (f_mul (delay cp i j 0%nat q) (delay cp i j 0%nat q)))
                  (covariance cp i j 0%nat q)))
    (f_cos (f_add (f_mul (delay cp i j 0%nat q) (mean cp i j 0%nat q))
                  (phase cp i j q))).

(** [(alpha[i, j, :] * corr).sum()] *)
Definition weighted_sum (Qn : nat) (cp : cross_params F) (i j : nat) : F :=
  f_sum ((λ q, f_mul (alpha_of cp i j q) (corr_of cp i j q)) <$> seq 0 Qn).

End CorrelationReaders.

(** Two channels, one input dimension, one component: the channels share
    their mean and differ in everything else. *)
Definition twin_model : model string float :=
  Model "MOSM" {| channels := ["A"; "B"]%string |} None 1
    [ {[ "magnitude" := Arr1 [1; 2]%float;
         "mean" := Arr2 2 [[1; 1]%float];
         "variance" := Arr2 2 [[1; 2]%float];
         "phase" := Arr1 [0; 1]%float;
         "delay" := Arr2 2 [[0; 3]%float] ]} ]
    [].

(** ** model.py: reading across components and writing back *)

(** [s.split(sep)] for a separator of one character: the pieces between
    the occurrences of [sep], empty pieces included. *)
Fixpoint split (sep : ascii) (s : string) : list string :=
  match s with
  | EmptyString => [EmptyString]
  | String c s' =>
      if decide (c = sep) then EmptyString :: split sep s'
      else match split sep s' with
           | piece :: pieces => String c piece :: pieces
           | [] => [String c EmptyString]
           end
  end.

(** The position a Python list index denotes in a list of [len] items. *)
Definition position (len : nat) (i : Z) : nat :=
  if 0 <=? i then Z.to_nat i else Z.to_nat (Z.of_nat len + i).

Section ModelAcross.
Context {D F : Type}.
Implicit Types self : model D F.

(** The shape of an array. *)
Definition shape (A : ndarray F) : list nat :=
  match A with
  | Arr1 v => [length v]
  | Arr2 ncols rows => [length rows; ncols]
  end.

Definition same_shapes (l : list (ndarray F)) : bool :=
  match l with
  | [] => true
  | A :: l' => forallb (λ B, bool_decide (shape B = shape A)) l'
  end.

(** [np.array(l)] on a list of arrays: they are stacked along a new first
    axis, read here as the list itself.  Arrays of different shapes do not
    stack: numpy raises [ValueError] (since version 1.24; before, it built
    an array of objects and warned). *)
Definition np_array (l : list (ndarray F)) : result (list (ndarray F)) :=
  if same_shapes l then Ok l else Raise ValueError.

(** [[self.params[q][name] for q in range(self.Q)]] *)
Definition across_list (name : string) self : result (list (ndarray F)) :=
  mapM (λ q, param self q name) (Py.range (Q self)).

(** [model._get_param_across] *)
Definition _get_param_across (name : string) self : result (list (ndarray F)) :=
  l ← across_list name self; np_array l.

(** Two models in which the loops of [get_cross_params] read the same
    values: the same [Q], and the same five entries in each of the first
    [Q] components. *)
Definition same_reads self self' : Prop :=
  Q self' = Q self
  ∧ ∀ q key, (q < Z.to_nat (Q self))%nat →
      key ∈ ["variance"; "mean"; "magnitude"; "phase"; "delay"]%string →
      param self' q key = param self q key.

(** The built-in [int] applied to a string. *)
Variable int : string → result Z.

(** The body of the loop of [model._update_params] for one item of
    [trainables]. *)
Definition update_param (key : string) (val : ndarray F) self : result (model D F) :=
  match split "/"%char key with
  | [_; kern; kernels; q; name] =>
      if decide (kern = "kern"%string ∧ kernels = "kernels"%string) then
        q ← int q;
        pq ← Py.getitem (params self) q;
        Ok (with_params self
              (<[position (length (params self)) q := <[name := val]> pq]> (params self)))
      else Ok self
  | _ => Ok self
  end.

(** [model._update_params]; [trainables] is the dictionary GPflow hands
    back, in its iteration order. *)
Definition _update_params (trainables : list (string * ndarray F)) self
    : result (model D F) :=
  Py.for_each trainables (λ item, update_param item.1 item.2) self.

End ModelAcross.

(** How often [x] occurs in a list of names. *)
Definition occurrences (x : string) (l : list string) : nat :=
  length (filter (λ y, y = x) l).

(** [int] on the decimal numerals of one digit, enough for the examples:
    everything else is refused. *)
Definition int_digit (s : string) : result Z :=
  match s with
  | String c EmptyString =>
      let n := nat_of_ascii c in
      if (48 <=? n)%nat && (n <=? 57)%nat then Ok (Z.of_nat (n - 48)) else Raise ValueError
  | _ => Raise ValueError
  end.

(** ** dataset.py: building and indexing a data set *)

Module PyList.

(** [l.index(x)]: the first position holding [x], [ValueError] when there
    is none. *)
Fixpoint index `{EqDecision A} (x : A) (l : list A) : result nat :=
  match l with
  | [] => Raise ValueError
  | y :: l' => if decide (y = x) then Ok 0%nat else i ← index x l'; Ok (S i)
  end.

(** [l[i] = x]: negative indices count from the end, anything outside
    [-len, len) raises [IndexError]; the list never grows. *)
Definition setitem {A} (l : list A) (i : Z) (x : A) : result (list A) :=
  let n := Z.of_nat (length l) in
  if (- n <=? i) && (i <? n) then Ok (<[position (length l) i := x]> l)
  else Raise IndexError.

End PyList.

(** The Python values [DataSet] tells apart with [isinstance]: an
    [np.ndarray], a [Data] object, another [DataSet] (with its channels),
    a [list], a [dict] with string keys, and anything else. *)
#[local] Unset Elimination Schemes.
Inductive pyval (A D : Type) : Type :=
| VArray (a : A)
| VData (c : D)
| VDataSet (cs : list D)
| VList (l : list (pyval A D))
| VDict (kv : list (string * pyval A D))
| VOther.
#[local] Set Elimination Schemes.
Arguments VArray {A D} a.
Arguments VData {A D} c.
Arguments VDataSet {A D} cs.
Arguments VList {A D} l.
Arguments VDict {A D} kv.
Arguments VOther {A D}.

Section DataSetBuild.
Context {A : Type} `{Channel D}.
Implicit Types self : DataSet D.
Implicit Types arg : pyval A D.

(** [isinstance(v, Data)] and [isinstance(v, np.ndarray)] *)
Definition is_data arg : bool := match arg with VData _ => true | _ => false end.
Definition is_array arg : bool := match arg with VArray _ => true | _ => false end.

Definition as_data arg : option D := match arg with VData c => Some c | _ => None end.
Definition as_array arg : option A := match arg with VArray a => Some a | _ => None end.

(** [isinstance(v, list) and all(isinstance(item, np.ndarray) for item in v)] *)
Definition is_array_list arg : bool :=
  match arg with VList l => forallb is_array l | _ => false end.

(** [DataSet.__getitem__] for a string or an integer key. *)
Definition __getitem__ self (key : index) : result D :=
  match key with
  | IStr s =>
      i ← PyList.index (Some s) (get_names self);
      Py.getitem (channels self) (Z.of_nat i)
  | IInt i => Py.getitem (channels self) i
  end.

(** [self.channels[key] = c]: a list takes no string as index. *)
Definition assign_channel (key : index) (c : D) self : result (DataSet D) :=
  match key with
  | IInt i => cs ← PyList.setitem (channels self) i c; Ok {| channels := cs |}
  | IStr _ => Raise TypeError
  end.

(** [DataSet.__setitem__] *)
Definition __setitem__ (key : index) arg self : result (DataSet D) :=
  match arg with
  | VData c => assign_channel key c self
  | VDataSet cs =>
      if decide (length cs = 1%nat) then
        c ← Py.getitem cs 0; assign_channel key c self
      else Raise Exception
  | _ => Raise Exception
  end.

(** [val.name = key] on a [Data] object. *)
Variable set_name : string → D → D.

(** [isinstance(arg, dict)] *)
Definition is_dict arg : bool := match arg with VDict _ => true | _ => false end.

(** [DataSet.append].  A [DataSet] argument is one other than [self], and
    a list one other than [self.channels]: the loop would feed on its own
    appends.  In the dictionary branch [val.name = key] renames the object
    itself; with values for objects, this is the behaviour for values that
    are held nowhere else, neither in [self.channels] nor under a second
    key. *)
Definition append arg self : result (DataSet D) :=
  match arg with
  | VData c => Ok {| channels := channels self ++ [c] |}
  | VDataSet cs => Ok {| channels := channels self ++ cs |}
  | VList l =>
      if forallb is_data l then Ok {| channels := channels self ++ omap as_data l |}
      else Raise Exception
  | VDict kv =>
      if forallb (λ item, is_data item.2) kv then
        Ok {| channels := channels self
                ++ omap (λ item, set_name item.1 <$> as_data item.2) kv |}
      else Raise Exception
  | _ => Raise Exception
  end.

(** [Data(x, y, name=name)], the constructor of [data.py]. *)
Variable Data : A → A → option string → result D.

(** The items a [for] loop draws from an [np.ndarray]; a 0-d array has
    none to give and raises. *)
Variable array_items : A → result (list A).

(** The items of the second positional argument, an array or a list of
    arrays. *)
Definition series_of arg : result (list A) :=
  match arg with
  | VArray a => array_items a
  | VList l => Ok (omap as_array l)
  | _ => Raise TypeError
  end.

(** The [names] argument after [if names is None or isinstance(names, str):
    names = [names]]; it is [None], a string or a list of names. *)
Definition names_list (names : option (string + list (option string)))
    : list (option string) :=
  match names with
  | None => [None]
  | Some (inl s) => [Some s]
  | Some (inr l) => l
  end.

(** [DataSet.__init__], called with the positional arguments [args] and
    the keyword argument [names]. *)
Definition DataSet_init (args : list (pyval A D))
    (names : option (string + list (option string))) : result (DataSet D) :=
  let self := {| channels := [] |} in
  let each_arg := Py.for_each args append self in
  match args with
  | [arg0; arg1] =>
      if is_array arg1 || is_array_list arg1 then
        let names := names_list names in
        match arg0 with
        | VArray x =>
            ys ← series_of arg1;
            Py.for_each (zip names ys)
              (λ item self, c ← Data x item.2 item.1; append (VData c) self) self
        | VList xs =>
            match arg1 with
            | VList ys =>
                if forallb is_array xs && bool_decide (length xs = length ys) then
                  Py.for_each (zip names (zip (omap as_array xs) (omap as_array ys)))
                    (λ item self, c ← Data item.2.1 item.2.2 item.1; append (VData c) self)
                    self
                else each_arg
            | _ => each_arg
            end
        | _ => each_arg
        end
      else each_arg
  | _ => each_arg
  end.

End DataSetBuild.

(** Two mixture components for one channel and one input dimension. *)
Definition pair_model : model string float :=
  Model "MOSM" {| channels := ["A"%string] |} None 2
    [ {[ "magnitude" := Arr1 [1%float]; "mean" := Arr2 1 [[1%float]];
         "variance" := Arr2 1 [[1%float]]; "phase" := Arr1 [0%float];
         "delay" := Arr2 1 [[0%float]] ]};
      {[ "magnitude" := Arr1 [3%float]; "mean" := Arr2 1 [[2%float]];
         "variance" := Arr2 1 [[1%float]]; "phase" := Arr1 [0%float];
         "delay" := Arr2 1 [[0%float]] ]} ]
    [].

(** A channel as the examples need it: a name and two series. *)
Record series := Series {
  series_name : option string;
  series_x : list Z;
  series_y : list Z
}.

Global Instance series_channel : Channel series := series_name.

Definition rename (key : string) (c : series) : series :=
  Series (Some key) (series_x c) (series_y c).

Definition new_series (x y : list Z) (name : option string) : result series :=
  Ok (Series name x y).

(** ** dataset.py: handing predictions back to the channels *)

(** [a[i:i+n]] along the first axis; a slice is clipped to the array and
    never raises. *)
Definition slice {X} (a : list X) (i n : nat) : list X := take n (drop i a).

Section Predictions.
Context {F D : Type}.

(** [len(channel.X_pred[0])] and [channel.set_prediction(name, mu, var)],
    both of [data.py]. *)
Variable pred_len : D → result nat.
Variable set_prediction : string → list F → list F → D → result D.

(** [DataSet._from_kernel_prediction].  [mu] and [var] are read along
    their first axis, one value per prediction point ([np.squeeze] only
    drops the axes of length one). *)
Definition _from_kernel_prediction (name : string) (mu var : list F) (self : DataSet D)
    : result (DataSet D) :=
  N ← mapM pred_len (channels self);
  if decide (length mu ≠ length var ∨ sum_list N ≠ length mu) then Raise ValueError
  else
    st ← Py.for_each (seq 0 (length (channels self)))
      (λ idx (st : list D * nat),
         n ← of_option (N !! idx) IndexError;
         let cmu := slice mu st.2 n in
         let cvar := slice var st.2 n in
         c ← of_option (st.1 !! idx) IndexError;
         c' ← set_prediction name cmu cvar c;
         Ok (<[idx := c']> st.1, (st.2 + n)%nat))
      (channels self, 0%nat);
    Ok {| channels := st.1 |}.

End Predictions.

(** A stand-in for [set_prediction] on [series]: the mean replaces the
    second series. *)
Definition store_prediction (name : string) (mu var : list Z) (c : series) : result series :=
  Ok (Series (series_name c) (series_x c) mu).

(** * Properties *)

(** ** Python sequences *)

Section PyFacts.
Context `{EqDecision A}.
Implicit Types l : list A.

Lemma getitem_nonneg l (i : Z) :
  0 ≤ i < Z.of_nat (length l) →
  Py.getitem l i = of_option (l !! Z.to_nat i) IndexError.
Proof.
  intros Hi. unfold Py.getitem.
  destruct (Z.leb_spec 0 i); [|lia].
  destruct (Z.ltb_spec i (Z.of_nat (length l))); [done|lia].
Qed.

Lemma getitem_negative l (i : Z) :
  - Z.of_nat (length l) ≤ i < 0 →
  Py.getitem l i = of_option (l !! Z.to_nat (Z.of_nat (length l) + i)) IndexError.
Proof.
  intros Hi. unfold Py.getitem.
  destruct (Z.leb_spec 0 i); [lia|]. simpl.
  destruct (Z.leb_spec (- Z.of_nat (length l)) i); [|lia].
  destruct (Z.ltb_spec i 0); [done|lia].
Qed.

Lemma remove_absent (x : A) l : x ∉ l → Py.remove x l = Raise ValueError.
Proof.
  induction l as [|y l IH]; intros Hx; [done|].
  simpl. destruct (decide (x = y)) as [->|Hne].
  - exfalso. apply Hx. left.
  - rewrite IH; [done|]. intros Hin. apply Hx. by right.
Qed.

(** Removing [x] after appending it: when [x] was absent the list is
    back, otherwise the first, older occurrence goes and the rest keeps
    its order. *)
Lemma remove_app_fresh (x : A) l : x ∉ l → Py.remove x (l ++ [x]) = Ok l.
Proof.
  induction l as [|y l IH]; intros Hx; simpl.
  - by rewrite decide_True.
  - destruct (decide (x = y)) as [->|Hne].
    + exfalso. apply Hx. left.
    + rewrite IH; [done|]. intros Hin. apply Hx. by right.
Qed.

Lemma remove_app_succeeds (x : A) l :
  ∃ l', Py.remove x (l ++ [x]) = Ok l' ∧ l' ≡ₚ l.
Proof.
  induction l as [|y l (l' & Hl' & Hperm)]; simpl.
  - exists []. by rewrite decide_True.
  - destruct (decide (x = y)) as [->|Hne].
    + exists (l ++ [y]). split; [done|].
      by rewrite Permutation_app_comm.
    + exists (y :: l'). rewrite Hl'. split; [done|]. by rewrite Hperm.
Qed.

End PyFacts.

(** ** dataset.py *)

(** C10: [DataSet.get] with an integer index in [[-channelCount, 0)]
    returns the channel at position [channelCount + index] (it does not
    raise), and an integer index at or beyond [channelCount] raises. *)
Theorem get_negative_index_wraps `{Channel D} (self : DataSet D) (i : Z) :
  (- get_output_dims self ≤ i < 0 →
     ∃ c, channels self !! Z.to_nat (get_output_dims self + i) = Some c
          ∧ get self (IInt i) = Ok c)
  ∧ (get_output_dims self ≤ i → get self (IInt i) = Raise ValueError).
Proof.
  unfold get_output_dims, get. split.
  - intros Hi.
    destruct (lookup_lt_is_Some_2 (channels self)
                (Z.to_nat (Z.of_nat (length (channels self)) + i))) as [c Hc]; [lia|].
    exists c. split; [done|].
    destruct (Z.ltb_spec i (Z.of_nat (length (channels self)))); [|lia].
    by rewrite getitem_negative, Hc.
  - intros Hi. by destruct (Z.ltb_spec i (Z.of_nat (length (channels self)))); [lia|].
Qed.

(** On three channels: index [-1] is the last channel, index [3] raises. *)
Lemma get_negative_index_wraps_witness :
  get {| channels := ["A"; "B"; "C"]%string |} (IInt (-1)) = Ok "C"%string
  ∧ get {| channels := ["A"; "B"; "C"]%string |} (IInt 3) = Raise ValueError.
Proof.
  pose proof (get_negative_index_wraps {| channels := ["A"; "B"; "C"]%string |}) as Hget.
  split.
  - destruct (Hget (-1)) as [Hneg _].
    destruct Hneg as (c & Hc & ->); [unfold get_output_dims; simpl; lia|].
    simpl in Hc. by injection Hc as <-.
  - destruct (Hget 3) as [_ Hbig]. apply Hbig. unfold get_output_dims; simpl; lia.
Defined.

(** ** model.py *)

Section ModelFacts.
Context {D F : Type}.
Implicit Types self : model D F.

(** A freshly initialised model holds no component at all. *)
Lemma model_init_params (n : string) (ds : DataSet D) (Qv : Z) :
  ∃ self, model_init (F := F) (Some n) (Some ds) (Some Qv) = Ok self
          ∧ params self = [] ∧ Q self = Qv ∧ fixed_params self = [].
Proof. eexists. by split. Qed.

Lemma set_param_empty_store (q : Z) key val self :
  params self = [] → set_param q key val self = Raise Exception.
Proof.
  intros Hp. unfold set_param. rewrite Hp. cbn [length Z.of_nat].
  destruct (Z.ltb_spec q 0); [done|]. simpl.
  change (Z.of_nat 0) with 0.
  destruct (Z.leb_spec 0 q); [done|lia].
Qed.

(** What [set_param] does, case by case: it raises exactly when [q] is
    negative, or not below [len(self.params)], or [key] is not yet a key
    of [self.params[q]]; otherwise it overwrites that one entry. *)
Lemma set_param_cases (q : Z) key val self :
  match set_param q key val self with
  | Raise e =>
      e = Exception ∧
      (q < 0 ∨ Z.of_nat (length (params self)) ≤ q
       ∨ ∃ pq, params self !! Z.to_nat q = Some pq ∧ key ∉ dom pq)
  | Ok self' =>
      0 ≤ q < Z.of_nat (length (params self))
      ∧ ∃ pq, params self !! Z.to_nat q = Some pq ∧ key ∈ dom pq
              ∧ self' = with_params self (<[Z.to_nat q := <[key := val]> pq]> (params self))
  end.
Proof.
  unfold set_param.
  destruct (Z.ltb_spec q 0) as [Hneg|Hnn]; [simpl; by auto|]. simpl.
  destruct (Z.leb_spec (Z.of_nat (length (params self))) q) as [Hge|Hlt]; [simpl; by auto|].
  rewrite getitem_nonneg by lia.
  destruct (lookup_lt_is_Some_2 (params self) (Z.to_nat q)) as [pq Hpq]; [lia|].
  rewrite Hpq. simpl.
  destruct (decide (key ∈ dom pq)) as [Hin|Hout].
  - split; [lia|]. by exists pq.
  - split; [done|]. right. right. by exists pq.
Qed.

End ModelFacts.

Section StoreClaims.
Context {D F : Type}.
Implicit Types self : model D F.

(** C8 (amended): [set_param(q, key, val)] raises exactly when [q < 0],
    or [q >= len(self.params)], or [key] is not already a key of
    [self.params[q]]; the bound is the length of the store, not [Q], and
    the recognised names are the keys the component holds.  When it does
    not raise it replaces the value under [key] in component [q] and
    touches nothing else. *)
Theorem set_param_raises_iff (q : Z) key val self :
  (raises (set_param q key val self) ↔
     q < 0 ∨ Z.of_nat (length (params self)) ≤ q ∨ ¬ has_key self q key)
  ∧ match set_param q key val self with
    | Ok self' =>
        ∃ pq, params self !! Z.to_nat q = Some pq
              ∧ self' = with_params self (<[Z.to_nat q := <[key := val]> pq]> (params self))
    | Raise e => e = Exception
    end.
Proof.
  pose proof (set_param_cases q key val self) as Hcases.
  destruct (set_param q key val self) as [self'|e]; simpl.
  - destruct Hcases as (Hq & pq & Hpq & Hin & ->). split; [|by exists pq].
    split; [done|]. intros [?|[?|Hno]]; [lia|lia|].
    apply Hno. by exists pq.
  - destruct Hcases as (-> & Hwhy). split; [|done].
    split; [|done]. intros _.
    destruct Hwhy as [?|[?|(pq & Hpq & Hout)]]; [by left|by right; left|].
    right. right. intros (pq' & Hpq' & Hin). congruence.
Qed.

(** The noise vector goes to index [Q]: with [Q + 1] dictionaries in
    the store, the last one holding the key, the call succeeds. *)
Lemma estimate_params_noise_succeeds noise self :
  0 ≤ Q self →
  Z.of_nat (length (params self)) = Q self + 1 →
  has_key self (Q self) "noise" →
  ∃ self', estimate_params_noise noise self = Ok self'.
Proof.
intros HQ Hlen Hkey. unfold estimate_params_noise.
pose proof (set_param_cases (Q self) "noise" noise self) as Hcases.
destruct (set_param (Q self) "noise" noise self) as [self'|e]; [by exists self'|].
destruct Hcases as (_ & [?|[?|(pq & Hpq & Hout)]]); [lia|lia|].
destruct Hkey as (pq' & Hpq' & Hin). congruence.
Qed.

(** C9: [fix_params(key)] followed by [unfix_params(key)] never raises
    and leaves the set of fixed names, hence the optimizable names, as
    they were, whether or not [key] was fixed before.  The list holds the
    same names with the same multiplicities; it is the very same list
    when [key] was not in it. *)
Theorem fix_unfix_round_trip key self :
  ∃ self', unfix_params key (fix_params key self) = Ok self'
    ∧ (list_to_set (fixed_params self') : gset string) = list_to_set (fixed_params self)
    ∧ (∀ names, optimizable self' names = optimizable self names)
    ∧ fixed_params self' ≡ₚ fixed_params self
    ∧ (key ∉ fixed_params self → self' = self)
    ∧ params self' = params self ∧ Q self' = Q self.
Proof.
  unfold unfix_params, fix_params. simpl.
  destruct (remove_app_succeeds key (fixed_params self)) as (fs & Hfs & Hperm).
  rewrite Hfs. simpl. eexists. split; [done|]. simpl.
  assert (∀ k, k ∈ fs ↔ k ∈ fixed_params self) as Hmem.
  { intros k. by rewrite Hperm. }
  split_and!; try done.
  - apply set_eq. intros k. by rewrite !elem_of_list_to_set.
  - intros names. unfold optimizable, trainable. simpl.
    apply list_filter_iff. intros k.
    rewrite !bool_decide_eq_true. by rewrite Hmem.
  - intros Hfresh. rewrite remove_app_fresh in Hfs by done.
    injection Hfs as <-. by destruct self.
Qed.

(** C7: on every data set, [Q] and name the constructor stops at its
    first statement with [TypeError]: no model, and no parameter store,
    comes out of it. *)
Theorem MOSM_init_raises (dataset : DataSet D) (Qv : Z) (n : string) :
  MOSM_init (F := F) dataset Qv n = Raise TypeError.
Proof. reflexivity. Qed.

End StoreClaims.

(** Fixing a name that is already fixed and unfixing it again: the older
    occurrence is the one [remove] drops, so the list comes back reordered,
    with the same names. *)
Example fix_unfix_already_fixed :
  (self ← unfix_params "variance" (fix_params "variance" fixed_model);
   Ok (fixed_params self))
  = Ok ["mean"; "variance"]%string.
Proof. reflexivity. Qed.

(** The store of [noise_model] has [Q + 1 = 2] dictionaries.  Index
    [Q = 1] lies outside [[0, Q)], yet [set_param(1, 'noise', ...)] does not
    raise. *)
Lemma set_param_noise_counterexample :
  ¬ (raises (set_param 1 "noise" (Arr1 [0.5%float]) noise_model)
     ↔ (¬ (0 ≤ 1 < Q noise_model) ∨ "noise" ∉ recognized_names)).
Proof.
  intros [_ Hraise]. apply Hraise. left. unfold noise_model. simpl. lia.
Qed.

(** In the other direction: right after [model.__init__] with [Q = 1],
    index [0] lies inside [[0, Q)] and the name is a recognised one, yet
    [set_param] raises, the store being empty. *)
Lemma set_param_fresh_store_raises :
  0 ≤ 0 < Q fresh_model ∧ "magnitude" ∈ recognized_names
  ∧ set_param 0 "magnitude" (Arr1 [1%float]) fresh_model = Raise Exception.
Proof.
  split; [unfold fresh_model; simpl; lia|]. split; [|done].
  unfold recognized_names. set_solver.
Qed.

(** ** numpy facts *)

Section NpFacts.
Context `{Scalar F}.

Lemma for_each_seq_inv {St} (I : nat → St → Prop) (k : nat)
    (body : nat → St → result St) (s : St) :
  I 0%nat s →
  (∀ x s, (x < k)%nat → I x s → ∃ s', body x s = Ok s' ∧ I (S x) s') →
  ∃ s', Py.for_each (seq 0 k) body s = Ok s' ∧ I k s'.
Proof.
  intros H0 Hstep.
  assert (∀ n a s, (a + n = k)%nat → I a s →
            ∃ s', Py.for_each (seq a n) body s = Ok s' ∧ I k s') as Hgen.
  { induction n as [|n IH]; intros a s0 Hk Ha; simpl.
    - exists s0. split; [done|]. by replace k with a by lia.
    - destruct (Hstep a s0) as (s1 & -> & H1); [lia|done|].
      simpl. apply IH; [lia|done]. }
  by apply (Hgen k 0%nat s).
Qed.

Lemma zip_with_fmap_seq {X} (op : F → F → F) (g1 g2 : X → F) (l : list X) :
  zip_with op (g1 <$> l) (g2 <$> l) = (λ x, op (g1 x) (g2 x)) <$> l.
Proof. induction l as [|x l IH]; [done|]. csimpl. by rewrite IH. Qed.

Lemma ew_fmap {X} (op : F → F → F) (g1 g2 : X → F) (l : list X) :
  Np.ew op (g1 <$> l) (g2 <$> l) = Ok ((λ x, op (g1 x) (g2 x)) <$> l).
Proof.
  unfold Np.ew. rewrite decide_True by (by rewrite !length_fmap).
  by rewrite zip_with_fmap_seq.
Qed.

Lemma dot_fmap {X} (g1 g2 : X → F) (l : list X) :
  Np.dot (g1 <$> l) (g2 <$> l) = Ok (f_dot (g1 <$> l) (g2 <$> l)).
Proof. unfold Np.dot. by rewrite decide_True by (by rewrite !length_fmap). Qed.

Lemma nth_fmap_seq (g : nat → F) (d n : nat) :
  (n < d)%nat → nth n (g <$> seq 0 d) f_zero = g n.
Proof.
  intros Hn. rewrite nth_lookup, list_lookup_fmap, lookup_seq_lt by done. done.
Qed.

Lemma rows_fmap_seq (rows : list (list F)) (i d : nat) :
  length rows = d →
  (λ r, nth i r f_zero) <$> rows = (λ n, nth i (nth n rows []) f_zero) <$> seq 0 d.
Proof.
  intros Hd. apply list_eq. intros n.
  rewrite !list_lookup_fmap.
  destruct (decide (n < d)%nat) as [Hn|Hn].
  - rewrite lookup_seq_lt by done. simpl.
    destruct (lookup_lt_is_Some_2 rows n) as [r Hr]; [lia|].
    rewrite Hr. simpl. by rewrite (nth_lookup_Some _ _ _ _ Hr).
  - rewrite lookup_seq_ge by lia. by rewrite lookup_ge_None_2 by lia.
Qed.

Lemma broadcast_to_same {X} (d : nat) (v : list X) :
  length v = d → Np.broadcast_to d v = Ok v.
Proof. intros Hd. unfold Np.broadcast_to. by rewrite decide_True. Qed.

Lemma mapM_broadcast_same (m : nat) (M : list (list F)) :
  Forall (λ r, length r = m) M → mapM (Np.broadcast_to m) M = Ok M.
Proof.
  induction 1 as [|r M Hr _ IH]; [done|].
  simpl. rewrite broadcast_to_same by done. simpl. by rewrite IH.
Qed.

Lemma broadcast2_to_same (m : nat) (M : list (list F)) :
  length M = m → Forall (λ r, length r = m) M → Np.broadcast2_to m M = Ok M.
Proof.
  intros Hm Hrows. unfold Np.broadcast2_to.
  rewrite broadcast_to_same by done. simpl. by apply mapM_broadcast_same.
Qed.

Lemma subtract_outer_shape (a : list F) (m : nat) :
  length a = m →
  length (Np.subtract_outer a a) = m
  ∧ Forall (λ r, length r = m) (Np.subtract_outer a a).
Proof.
  intros Ha. unfold Np.subtract_outer. split; [by rewrite length_fmap|].
  apply Forall_fmap, Forall_forall. intros x _. simpl. by rewrite length_fmap.
Qed.

Lemma at2_subtract_outer (a b : list F) (i j : nat) :
  (i < length a)%nat → (j < length b)%nat →
  Np.at2 (Np.subtract_outer a b) i j = f_sub (nth i a f_zero) (nth j b f_zero).
Proof.
  intros Hi Hj. unfold Np.at2, Np.subtract_outer.
  destruct (lookup_lt_is_Some_2 a i) as [x Hx]; [done|].
  destruct (lookup_lt_is_Some_2 b j) as [y Hy]; [done|].
  rewrite (nth_lookup_Some a i f_zero x Hx), (nth_lookup_Some b j f_zero y Hy).
  erewrite (nth_lookup_Some _ i []); [|by rewrite list_lookup_fmap, Hx].
  erewrite nth_lookup_Some; [done|]. by rewrite list_lookup_fmap, Hy.
Qed.

End NpFacts.

(** ** Shapes *)

Section ShapeFacts.
Context {D : Type} `{Scalar F}.
Implicit Types self : model D F.

Lemma is_vector_true (m : nat) (A : option (ndarray F)) :
  is_vector m A = true → ∃ v, A = Some (Arr1 v) ∧ length v = m.
Proof.
  destruct A as [[v|c rows]|]; simpl; try done.
  intros Hv%bool_decide_eq_true. by exists v.
Qed.

Lemma is_matrix_true (d m : nat) (A : option (ndarray F)) :
  is_matrix d m A = true →
  ∃ rows, A = Some (Arr2 m rows) ∧ length rows = d
          ∧ Forall (λ r, length r = m) rows.
Proof.
  destruct A as [[v|c rows]|]; simpl; try done.
  rewrite !andb_true_iff, !bool_decide_eq_true, forallb_forall.
  intros [[-> Hd] Hrows]. exists rows. split_and!; try done.
  apply Forall_forall. intros r Hr%list_elem_of_In.
  by apply (bool_decide_eq_true_1 _), Hrows.
Qed.

Lemma well_shaped_Q m d self : well_shaped m d self = true → 0 ≤ Q self.
Proof. unfold well_shaped. rewrite andb_true_iff. intros [HQ%Z.leb_le _]. done. Qed.

Lemma well_shaped_component m d self (q : nat) :
  well_shaped m d self = true → (q < Z.to_nat (Q self))%nat →
  component_ok m d (params self !! q) = true.
Proof.
  unfold well_shaped. rewrite andb_true_iff, forallb_forall.
  intros [_ Hall] Hq. apply Hall. unfold Py.range.
  apply list_elem_of_In, elem_of_seq. lia.
Qed.

Lemma param_pval self (q : nat) key A :
  pval self q key = Some A → param self q key = Ok A.
Proof.
  unfold pval, param, component, getkey.
  destruct (params self !! q) as [c|]; simpl; [|done].
  by intros ->.
Qed.

Lemma param_col self (d m q i : nat) key :
  is_matrix d m (pval self q key) = true → (i < m)%nat →
  param self q key ≫= Np.col i
  = Ok ((λ n, mat_at (pval self q key) n i) <$> seq 0 d).
Proof.
  intros (rows & HA & Hd & _)%is_matrix_true Hi.
  rewrite (param_pval _ _ _ _ HA), HA. simpl.
  rewrite decide_True by done. by rewrite (rows_fmap_seq rows i d).
Qed.

Lemma param_item self (m q i : nat) key :
  is_vector m (pval self q key) = true → (i < m)%nat →
  param self q key ≫= Np.item i = Ok (vec_at (pval self q key) i).
Proof.
  intros (v & HA & Hm)%is_vector_true Hi.
  rewrite (param_pval _ _ _ _ HA), HA. simpl.
  destruct (lookup_lt_is_Some_2 v i) as [x Hx]; [lia|].
  by rewrite Hx, (nth_lookup_Some _ _ _ _ Hx).
Qed.

Lemma param_as1d self (m q : nat) key :
  is_vector m (pval self q key) = true →
  ∃ v, param self q key ≫= Np.as1d = Ok v ∧ length v = m
       ∧ ∀ i, nth i v f_zero = vec_at (pval self q key) i.
Proof.
  intros (v & HA & Hm)%is_vector_true.
  rewrite (param_pval _ _ _ _ HA), HA. simpl. by exists v.
Qed.

Lemma param_row self (d m q n : nat) key :
  is_matrix d m (pval self q key) = true → (n < d)%nat →
  ∃ r, param self q key ≫= Np.row n = Ok r ∧ length r = m
       ∧ ∀ i, nth i r f_zero = mat_at (pval self q key) n i.
Proof.
  intros (rows & HA & Hd & Hrows)%is_matrix_true Hn.
  rewrite (param_pval _ _ _ _ HA), HA. simpl.
  destruct (lookup_lt_is_Some_2 rows n) as [r Hr]; [lia|].
  exists r. rewrite Hr. split_and!; [done| |].
  - by apply (Forall_lookup_1 _ _ _ _ Hrows Hr).
  - intros i. by rewrite (nth_lookup_Some _ _ _ _ Hr).
Qed.

End ShapeFacts.

(** ** The loops of [get_cross_params] *)

Section CrossFacts.
Context {D : Type} `{Scalar F}.
Variables (self : model D F) (m d : nat).
Hypothesis Hshape : well_shaped m d self = true.

Lemma bind_Ok {A B} (a : A) (f : A → result B) : (Ok a ≫= f) = f a.
Proof. reflexivity. Qed.

Lemma set_slice_fmap (i j q : nat) (g : nat → F) (T : nat → nat → nat → nat → F) :
  set_slice d i j q (g <$> seq 0 d) T
  = Ok (λ i' j' n q',
          if decide (i' = i ∧ j' = j ∧ q' = q ∧ n < d)%nat
          then nth n (g <$> seq 0 d) f_zero else T i' j' n q').
Proof.
  unfold set_slice. rewrite broadcast_to_same; [done|].
  by rewrite length_fmap, length_seq.
Qed.

Lemma component_shapes (q : nat) :
  (q < Z.to_nat (Q self))%nat →
  is_vector m (pval self q "magnitude") = true
  ∧ is_matrix d m (pval self q "mean") = true
  ∧ is_matrix d m (pval self q "variance") = true
  ∧ is_vector m (pval self q "phase") = true
  ∧ is_matrix d m (pval self q "delay") = true.
Proof using Hshape.
  intros Hq. pose proof (well_shaped_component m d self q Hshape Hq) as Hc.
  unfold component_ok in Hc. rewrite !andb_true_iff in Hc.
  by destruct Hc as [[[[? ?] ?] ?] ?].
Qed.

Lemma agrees_mono (Pc Pc' : nat → nat → nat → Prop) (Pp Pp' : nat → Prop)
    (Pd Pd' : nat → nat → Prop) cp :
  (∀ q i j, (i < m)%nat → (j < m)%nat → Pc' q i j → Pc q i j) →
  (∀ q, Pp' q → Pp q) →
  (∀ q n, (n < d)%nat → Pd' q n → Pd q n) →
  agrees self m d Pc Pp Pd cp → agrees self m d Pc' Pp' Pd' cp.
Proof.
  intros Hc Hp Hd (Hcm & Hmag & Hph & Hdl). split_and!.
  - intros q i j n ? ? ? ?. apply Hcm; auto.
  - intros q i j ? ? ?. apply Hmag; auto.
  - intros q i j ? ? ?. apply Hph; auto.
  - intros q i j n ? ? ? ?. apply Hdl; auto.
Qed.

Lemma cross_body_agrees Pc Pp Pd (q i j : nat) cp :
  (q < Z.to_nat (Q self))%nat → (i < m)%nat → (j < m)%nat →
  agrees self m d Pc Pp Pd cp →
  ∃ cp', cross_body self d q i j cp = Ok cp'
         ∧ agrees self m d (λ q' i' j', Pc q' i' j' ∨ (q' = q ∧ i' = i ∧ j' = j)) Pp Pd cp'.
Proof using Hshape.
  intros Hq Hi Hj (Hcm & Hmag & Hph & Hdl).
  destruct (component_shapes q Hq) as (Hw & Hmu & Hvar & _ & _).
  unfold cross_body.
  rewrite (param_col self d m q i "variance" Hvar Hi), bind_Ok.
  rewrite (param_col self d m q j "variance" Hvar Hj), bind_Ok.
  rewrite (param_col self d m q i "mean" Hmu Hi), bind_Ok.
  rewrite (param_col self d m q j "mean" Hmu Hj), bind_Ok.
  rewrite (param_item self m q i "magnitude" Hw Hi), bind_Ok.
  rewrite (param_item self m q j "magnitude" Hw Hj), bind_Ok.
  rewrite !ew_fmap, !bind_Ok.
  rewrite <- list_fmap_compose, ew_fmap, bind_Ok.
  rewrite set_slice_fmap, bind_Ok, !dot_fmap, !bind_Ok.
  rewrite <- list_fmap_compose, set_slice_fmap, bind_Ok.
  rewrite bind_Ok, <- list_fmap_compose, ew_fmap, bind_Ok.
  eexists. split; [reflexivity|].
  split_and!; simpl.
  - intros q' i' j' n Hi' Hj' Hn HP.
    destruct (decide (i' = i ∧ j' = j ∧ q' = q ∧ (n < d)%nat)) as [(-> & -> & -> & _)|Hne].
    + by rewrite !nth_fmap_seq by done.
    + apply Hcm; try done. destruct HP as [?|(-> & -> & ->)]; [done|].
      exfalso. by apply Hne.
  - intros q' i' j' Hi' Hj' HP. unfold set_entry.
    destruct (decide (i' = i ∧ j' = j ∧ q' = q)) as [(-> & -> & ->)|Hne].
    + done.
    + apply Hmag; try done. destruct HP as [?|(-> & -> & ->)]; [done|].
      exfalso. by apply Hne.
  - done.
  - done.
Qed.

Lemma inner_loop_agrees Pc Pp Pd (q i : nat) cp :
  (q < Z.to_nat (Q self))%nat → (i < m)%nat →
  agrees self m d Pc Pp Pd cp →
  ∃ cp', Py.for_each (seq 0 m) (λ j, cross_body self d q i j) cp = Ok cp'
         ∧ agrees self m d (λ q' i' j', Pc q' i' j' ∨ (q' = q ∧ i' = i)) Pp Pd cp'.
Proof using Hshape.
  intros Hq Hi Hcp.
  destruct (for_each_seq_inv
    (λ j, agrees self m d (λ q' i' j', Pc q' i' j' ∨ (q' = q ∧ i' = i ∧ (j' < j)%nat)) Pp Pd)
    m (λ j, cross_body self d q i j) cp) as (cp' & Hrun & Hcp').
  - eapply agrees_mono; [| | |exact Hcp]; [|done..].
    intros q' i' j' _ _ [?|(_ & _ & ?)]; [done|lia].
  - intros j cp0 Hj Hcp0.
    destruct (cross_body_agrees _ _ _ q i j cp0 Hq Hi Hj Hcp0) as (cp1 & Hrun & Hcp1).
    exists cp1. split; [done|].
    eapply agrees_mono; [| | |exact Hcp1]; [|done..].
    intros q' i' j' _ _ [?|(-> & -> & Hlt)]; [by left; left|].
    destruct (decide (j' = j)) as [->|Hne]; [by right|].
    left. right. split_and!; try done. lia.
  - exists cp'. split; [done|].
    eapply agrees_mono; [| | |exact Hcp']; [|done..].
    intros q' i' j' _ Hj' [?|(-> & ->)]; [by left|]. by right.
Qed.

Lemma outer_loop_agrees Pc Pp Pd (q : nat) cp :
  (q < Z.to_nat (Q self))%nat →
  agrees self m d Pc Pp Pd cp →
  ∃ cp', Py.for_each (seq 0 m)
           (λ i, Py.for_each (seq 0 m) (λ j, cross_body self d q i j)) cp = Ok cp'
         ∧ agrees self m d (λ q' i' j', Pc q' i' j' ∨ q' = q) Pp Pd cp'.
Proof using Hshape.
  intros Hq Hcp.
  destruct (for_each_seq_inv
    (λ i, agrees self m d (λ q' i' j', Pc q' i' j' ∨ (q' = q ∧ (i' < i)%nat)) Pp Pd)
    m (λ i, Py.for_each (seq 0 m) (λ j, cross_body self d q i j)) cp)
    as (cp' & Hrun & Hcp').
  - eapply agrees_mono; [| | |exact Hcp]; [|done..].
    intros q' i' j' _ _ [?|(_ & ?)]; [done|lia].
  - intros i cp0 Hi Hcp0.
    destruct (inner_loop_agrees _ _ _ q i cp0 Hq Hi Hcp0) as (cp1 & Hrun & Hcp1).
    exists cp1. split; [done|].
    eapply agrees_mono; [| | |exact Hcp1]; [|done..].
    intros q' i' j' _ _ [?|(-> & Hlt)]; [by left; left|].
    destruct (decide (i' = i)) as [->|Hne]; [by right|].
    left. right. split; [done|lia].
  - exists cp'. split; [done|].
    eapply agrees_mono; [| | |exact Hcp']; [|done..].
    intros q' i' j' Hi' _ [?| ->]; [by left|]. by right.
Qed.

Lemma set_plane_outer (q : nat) (a : list F) (T : nat → nat → nat → F) :
  length a = m →
  set_plane m q (Np.subtract_outer a a) T
  = Ok (λ i j q',
          if decide (q' = q ∧ i < m ∧ j < m)%nat
          then Np.at2 (Np.subtract_outer a a) i j else T i j q').
Proof.
  intros Ha. unfold set_plane.
  destruct (subtract_outer_shape a m Ha) as [Hlen Hrows].
  by rewrite broadcast2_to_same.
Qed.

Lemma set_plane_at_outer (n q : nat) (a : list F) (T : nat → nat → nat → nat → F) :
  length a = m →
  set_plane_at m n q (Np.subtract_outer a a) T
  = Ok (λ i j n' q',
          if decide (n' = n ∧ q' = q ∧ i < m ∧ j < m)%nat
          then Np.at2 (Np.subtract_outer a a) i j else T i j n' q').
Proof.
  intros Ha. unfold set_plane_at.
  destruct (subtract_outer_shape a m Ha) as [Hlen Hrows].
  by rewrite broadcast2_to_same.
Qed.

Lemma delay_body_agrees Pc Pp Pd (q n : nat) cp :
  (q < Z.to_nat (Q self))%nat → (n < d)%nat →
  agrees self m d Pc Pp Pd cp →
  ∃ cp', delay_body self m q n cp = Ok cp'
         ∧ agrees self m d Pc Pp (λ q' n', Pd q' n' ∨ (q' = q ∧ n' = n)) cp'.
Proof using Hshape.
  intros Hq Hn (Hcm & Hmag & Hph & Hdl).
  destruct (component_shapes q Hq) as (_ & _ & _ & _ & Hdelay).
  destruct (param_row self d m q n "delay" Hdelay Hn) as (r & Hr & Hlen & Hnth).
  unfold delay_body. rewrite Hr, bind_Ok, set_plane_at_outer, bind_Ok by done.
  eexists. split; [reflexivity|].
  split_and!; simpl; try done.
  intros q' i j n' Hi Hj Hn' HP.
  destruct (decide (n' = n ∧ q' = q ∧ (i < m)%nat ∧ (j < m)%nat)) as [(-> & -> & _)|Hne].
  - rewrite at2_subtract_outer by lia. by rewrite !Hnth.
  - apply Hdl; try done. destruct HP as [?|(-> & ->)]; [done|].
    exfalso. by apply Hne.
Qed.

Lemma component_body_agrees (q : nat) cp :
  (q < Z.to_nat (Q self))%nat →
  agrees self m d (λ q' _ _, q' < q)%nat (λ q', q' < q)%nat (λ q' _, q' < q)%nat cp →
  ∃ cp', component_body self m d q cp = Ok cp'
         ∧ agrees self m d (λ q' _ _, q' < S q)%nat (λ q', q' < S q)%nat
             (λ q' _, q' < S q)%nat cp'.
Proof using Hshape.
  intros Hq Hcp. unfold component_body.
  destruct (outer_loop_agrees _ _ _ q cp Hq Hcp) as (cp1 & -> & Hcm & Hmag & Hph & Hdl).
  rewrite bind_Ok.
  destruct (component_shapes q Hq) as (_ & _ & _ & Hphase & _).
  destruct (param_as1d self m q "phase" Hphase) as (v & -> & Hlen & Hnth).
  rewrite bind_Ok, set_plane_outer, bind_Ok by done.
  destruct (for_each_seq_inv
    (λ n, agrees self m d (λ q' _ _, q' < S q)%nat (λ q', q' < S q)%nat
            (λ q' n', q' < q ∨ (q' = q ∧ n' < n))%nat)
    d (λ n, delay_body self m q n)
    {| covariance := covariance cp1; mean := mean cp1; magnitude := magnitude cp1;
       delay := delay cp1;
       phase := λ i j q',
         if decide (q' = q ∧ (i < m)%nat ∧ (j < m)%nat)
         then Np.at2 (Np.subtract_outer v v) i j else phase cp1 i j q' |})
    as (cp' & Hrun & Hcp').
  - split_and!; simpl.
    + intros q' i j n ? ? ? ?. apply Hcm; try done. lia.
    + intros q' i j ? ? ?. apply Hmag; try done. lia.
    + intros q' i j Hi Hj Hq'.
      destruct (decide (q' = q ∧ (i < m)%nat ∧ (j < m)%nat)) as [(-> & _)|Hne].
      * rewrite at2_subtract_outer by lia. by rewrite !Hnth.
      * apply Hph; try done. lia.
    + intros q' i j n ? ? ? ?. apply Hdl; try done. lia.
  - intros n cp0 Hn Hcp0.
    destruct (delay_body_agrees _ _ _ q n cp0 Hq Hn Hcp0) as (cp2 & Hrun & Hcp2).
    exists cp2. split; [done|].
    eapply agrees_mono; [| | |exact Hcp2]; [done|done|].
    intros q' n' _ ?. simpl in *. lia.
  - exists cp'. split; [done|].
    eapply agrees_mono; [| | |exact Hcp']; [done|done|].
    intros q' n' ? ?. simpl in *. lia.
Qed.

(** On a populated store the loops of [get_cross_params] run to their
    end for the given [m] and [d], and every entry
    of the five arrays is the closed form the loops compute. *)
Lemma cross_params_loops_agree :
  ∃ cp, cross_params_loops m d self = Ok cp
        ∧ agrees self m d (λ q _ _, q < Z.to_nat (Q self))%nat
            (λ q, q < Z.to_nat (Q self))%nat (λ q _, q < Z.to_nat (Q self))%nat cp.
Proof using Hshape.
  unfold cross_params_loops.
  pose proof (well_shaped_Q m d self Hshape) as HQ.
  destruct (Z.ltb_spec (Q self) 0) as [?|_]; [lia|].
  apply (for_each_seq_inv
    (λ q, agrees self m d (λ q' _ _, q' < q)%nat (λ q', q' < q)%nat (λ q' _, q' < q)%nat)).
  - split_and!; intros; lia.
  - intros q cp Hq Hcp. by apply component_body_agrees.
Qed.

End CrossFacts.

(** ** Binary64 arithmetic at zero *)

Section FloatFacts.
Local Open Scope float_scope.

Lemma is_zero_cases (x : float) : is_zero x = true → x = 0 ∨ x = -0.
Proof.
  unfold is_zero. rewrite FloatAxioms.eqb_spec. intros Hx.
  rewrite <- (SF2Prim_Prim2SF x).
  destruct (Prim2SF x) as [[|]|[|]| |[|] mx e]; try discriminate Hx; auto.
Qed.

Lemma add_zeros (x y : float) :
  is_zero x = true → is_zero y = true → is_zero (x + y) = true.
Proof. by intros [->| ->]%is_zero_cases [->| ->]%is_zero_cases. Qed.

Lemma zero_over_zero_cov (x y : float) :
  is_zero x = true → is_zero y = true → 2 * (x * y) / (x + y) = nan.
Proof. by intros [->| ->]%is_zero_cases [->| ->]%is_zero_cases. Qed.

(** Whatever is divided by a zero, the quotient is [nan] or an infinity;
    it is [nan] when the dividend is a zero or [nan]. *)
Lemma div_by_zero (x z : float) :
  is_zero z = true →
  is_finite (x / z) = false ∧ (is_zero x = true ∨ x = nan → x / z = nan).
Proof.
  intros Hz. split.
  - rewrite <- (SF2Prim_Prim2SF (x / z)), div_spec.
    destruct (is_zero_cases z Hz) as [->| ->];
      destruct (Prim2SF x) as [[|]|[|]| |[|] mx e]; reflexivity.
  - by destruct (is_zero_cases z Hz) as [->| ->];
      intros [[->| ->]%is_zero_cases| ->].
Qed.

(** A finite number minus itself is [+0]. *)
Lemma sub_self (x : float) : is_finite x = true → x - x = 0.
Proof.
  intros Hx. rewrite <- (SF2Prim_Prim2SF (x - x)), sub_spec.
  rewrite <- (SF2Prim_Prim2SF x) in Hx.
  destruct (Prim2SF x) as [[|]|[|]| |s mx e]; try discriminate Hx; try reflexivity.
  simpl. by rewrite Z.sub_diag.
Qed.

End FloatFacts.

(** ** The arithmetic obeys the laws *)

Section FloatLaws.
Local Open Scope float_scope.

Lemma SFmul_comm prec emax x y : SFmul prec emax x y = SFmul prec emax y x.
Proof.
  destruct x as [sx|sx| |sx mx ex], y as [sy|sy| |sy my ey]; simpl;
    rewrite ?(xorb_comm sx sy); try reflexivity.
  by rewrite Pos.mul_comm, Z.add_comm.
Qed.

Lemma SFadd_comm prec emax x y : SFadd prec emax x y = SFadd prec emax y x.
Proof.
  destruct x as [[|]|[|]| |sx mx ex], y as [[|]|[|]| |sy my ey]; simpl; try reflexivity.
  by rewrite Z.min_comm, Z.add_comm.
Qed.

Lemma float_add_comm (x y : float) : x + y = y + x.
Proof. apply Prim2SF_inj. rewrite !add_spec. apply SFadd_comm. Qed.

Lemma float_mul_comm (x y : float) : x * y = y * x.
Proof. apply Prim2SF_inj. rewrite !mul_spec. apply SFmul_comm. Qed.

(** Rounding does not look at the sign. *)
Lemma binary_round_aux_sign prec emax s mx ex lx :
  same_abs (binary_round_aux prec emax s mx ex lx)
           (binary_round_aux prec emax (negb s) mx ex lx).
Proof.
  unfold same_abs, binary_round_aux.
  destruct (shr_fexp prec emax mx ex lx) as [mrs' e'].
  destruct (shr_fexp prec emax
              (round_nearest_even (shr_m mrs') (loc_of_shr_record mrs')) e' loc_Exact)
    as [mrs'' e''].
  destruct (shr_m mrs''); try reflexivity.
  by destruct (Z.leb e'' (emax - prec)).
Qed.

Lemma SFsub_swap prec emax x y :
  same_abs (SFsub prec emax x y) (SFsub prec emax y x).
Proof.
  unfold same_abs.
  destruct x as [[|]|[|]| |sx mx ex], y as [[|]|[|]| |sy my ey]; simpl; try reflexivity.
  rewrite (Z.min_comm ey ex).
  set (a := cond_Zopp sx _). set (b := cond_Zopp sy _).
  replace (b - a)%Z with (- (a - b))%Z by lia. clearbody a b.
  destruct (a - b)%Z as [|p|p]; simpl; try reflexivity.
  - unfold binary_round. destruct (shl_align _ _ _) as [mz ez].
    apply (binary_round_aux_sign prec emax false).
  - unfold binary_round. destruct (shl_align _ _ _) as [mz ez].
    apply (binary_round_aux_sign prec emax true).
Qed.

Lemma SFmul_same_abs prec emax x y :
  same_abs x y → SFmul prec emax x x = SFmul prec emax y y.
Proof.
  unfold same_abs.
  destruct x as [sx|sx| |sx mx ex], y as [sy|sy| |sy my ey]; simpl;
    try discriminate; try reflexivity;
    intros [= ]; subst; rewrite ?xorb_nilpotent; reflexivity.
Qed.

Lemma float_sub_sq (x y : float) : (x - y) * (x - y) = (y - x) * (y - x).
Proof.
  apply Prim2SF_inj. rewrite !mul_spec, !sub_spec.
  apply SFmul_same_abs, SFsub_swap.
Qed.

Lemma float_scalar_laws (p : platform) : @ScalarLaws float (float_scalar p).
Proof.
  split; simpl; [apply float_add_comm | apply float_mul_comm | apply float_sub_sq].
Qed.

End FloatLaws.

(** ** Binary64: differences and quotients *)

Section FloatSigns.
Local Open Scope float_scope.

(** Rounding commutes with the change of sign. *)
Lemma binary_round_aux_opp prec emax s mx ex lx :
  binary_round_aux prec emax (negb s) mx ex lx
  = SFopp (binary_round_aux prec emax s mx ex lx).
Proof.
  unfold binary_round_aux.
  destruct (shr_fexp prec emax mx ex lx) as [mrs' e'].
  destruct (shr_fexp prec emax
              (round_nearest_even (shr_m mrs') (loc_of_shr_record mrs')) e' loc_Exact)
    as [mrs'' e''].
  destruct (shr_m mrs''); try reflexivity.
  by destruct (Z.leb e'' (emax - prec)).
Qed.

Lemma SFsub_antisym prec emax x y :
  SFsub prec emax x y = SFopp (SFsub prec emax y x)
  ∨ (SFsub prec emax x y = S754_zero false ∧ SFsub prec emax y x = S754_zero false).
Proof.
  destruct x as [[|]|[|]| |sx mx ex], y as [[|]|[|]| |sy my ey]; simpl;
    try (by left); try (by right); try (left; by rewrite negb_involutive).
  rewrite (Z.min_comm ey ex).
  set (a := cond_Zopp sx _). set (b := cond_Zopp sy _).
  replace (b - a)%Z with (- (a - b))%Z by lia. clearbody a b.
  destruct (a - b)%Z as [|k|k]; simpl.
  - by right.
  - left. unfold binary_round. destruct (shl_align _ _ _) as [mz ez].
    apply (binary_round_aux_opp prec emax true).
  - left. unfold binary_round. destruct (shl_align _ _ _) as [mz ez].
    apply (binary_round_aux_opp prec emax false).
Qed.

(** [x - y] is the opposite of [y - x], except that both are [+0] when
    the two numbers are equal. *)
Lemma float_sub_antisym (x y : float) :
  x - y = - (y - x) ∨ (x - y = 0 ∧ y - x = 0).
Proof.
  destruct (SFsub_antisym prec emax (Prim2SF x) (Prim2SF y)) as [Hopp|[Hxy Hyx]].
  - left. apply Prim2SF_inj. by rewrite opp_spec, !sub_spec.
  - right. split; apply Prim2SF_inj; by rewrite sub_spec.
Qed.

(** A zero divided by a number that is neither zero nor [nan] is a
    zero. *)
Lemma zero_div (z s : float) :
  is_zero z = true → is_zero s = false → is_nan s = false → is_zero (z / s) = true.
Proof.
  intros Hz Hs Hn. rewrite <- (SF2Prim_Prim2SF s) in Hs, Hn.
  rewrite <- (SF2Prim_Prim2SF (z / s)), div_spec.
  destruct (is_zero_cases z Hz) as [->| ->];
    destruct (Prim2SF s) as [[|]|[|]| |[|] ms es];
    try discriminate Hs; try discriminate Hn; reflexivity.
Qed.

Lemma neg_quarter_of_zero (z : float) : is_zero z = true → is_zero (-0.25 * z) = true.
Proof. by intros [->| ->]%is_zero_cases. Qed.

End FloatSigns.

(** ** Binary64: [nan], sums and the laws of the platform *)

Section FloatNan.
Local Open Scope float_scope.

Lemma float_div_nan_r (x : float) : x / nan = nan.
Proof.
  apply Prim2SF_inj. rewrite div_spec.
  by destruct (Prim2SF x) as [[|]|[|]| |[|] mx ex].
Qed.

Lemma float_mul_nan_r (x : float) : x * nan = nan.
Proof.
  apply Prim2SF_inj. rewrite mul_spec.
  by destruct (Prim2SF x) as [[|]|[|]| |[|] mx ex].
Qed.

Lemma float_mul_nan_l (x : float) : nan * x = nan.
Proof. by rewrite float_mul_comm, float_mul_nan_r. Qed.

Lemma float_add_nan_r (x : float) : x + nan = nan.
Proof.
  apply Prim2SF_inj. rewrite add_spec.
  by destruct (Prim2SF x) as [[|]|[|]| |[|] mx ex].
Qed.

Lemma float_add_nan_l (x : float) : nan + x = nan.
Proof. by rewrite float_add_comm, float_add_nan_r. Qed.

Lemma float_sum_nan_acc (l : list float) : foldl PrimFloat.add nan l = nan.
Proof. induction l as [|x l IH]; simpl; [done|]. by rewrite float_add_nan_l. Qed.

(** Added from left to right, a sum with a [nan] term is [nan]. *)
Lemma float_sum_nan (l : list float) (acc : float) :
  nan ∈ l → foldl PrimFloat.add acc l = nan.
Proof.
  revert acc. induction l as [|x l IH]; intros acc Hin; [by apply elem_of_nil in Hin|].
  simpl. apply elem_of_cons in Hin as [<-|Hin].
  - rewrite float_add_nan_r. apply float_sum_nan_acc.
  - by apply IH.
Qed.

Lemma float_sum_zeros (l : list float) (acc : float) :
  is_zero acc = true → Forall (λ z, is_zero z = true) l →
  is_zero (foldl PrimFloat.add acc l) = true.
Proof.
  revert acc. induction l as [|x l IH]; intros acc Hacc Hl; simpl; [done|].
  inversion Hl as [|? ? Hx Hl']; subst. apply IH; [|done]. by apply add_zeros.
Qed.

(** [+0] added to a number other than zero leaves it as it is. *)
Lemma float_add_0_l (x : float) : is_zero x = false → 0 + x = x.
Proof.
  intros Hx. rewrite <- (SF2Prim_Prim2SF x) in Hx.
  apply Prim2SF_inj. rewrite add_spec.
  by destruct (Prim2SF x) as [[|]|[|]| |[|] mx ex].
Qed.

(** The laws ask nothing that cannot be met. *)
Lemma left_to_right_laws : numpy_laws left_to_right.
Proof.
  split; simpl.
  - done.
  - intros l Hl. by apply float_sum_zeros.
  - intros x Hx. by apply float_add_0_l.
  - intros l Hl. by apply float_sum_nan.
  - intros a b Hab. by apply float_add_0_l.
Qed.

Lemma on_numpy_intro (P : platform → Prop) :
  (∀ p : platform, numpy_laws p → P p) → on_numpy P.
Proof. intros Hall. split; [exact Hall | exact (Hall _ left_to_right_laws)]. Qed.

End FloatNan.

(** ** A channel paired with itself, in binary64 *)

Section LoudModel.
Local Open Scope float_scope.

(** The cross-magnitude of the one channel of [loud_model] with itself,
    for [d = 1]: [2 * 2 * exp(-0.25 * sum([0]))]. *)
Lemma loud_magnitude (p : platform) :
  numpy_laws p →
  @magnitude_at string float (float_scalar p) loud_model 1 0 0 0 = 4.
Proof.
  intros Hp. unfold magnitude_at.
  change (f_sum _) with (np_sum p [0]).
  pose proof (sum_zeros p Hp [0] ltac:(by repeat constructor)) as Hz.
  assert (np_exp p (-0.25 * np_sum p [0]) = 1) as Hexp.
  { apply (exp_zero p Hp).
    by destruct (is_zero_cases _ Hz) as [->| ->]. }
  change (f_exp ?x) with (np_exp p x). simpl f_mul. simpl f_neg_quarter.
  change (np_exp p _) with (np_exp p (-0.25 * np_sum p [0])).
  by rewrite Hexp.
Qed.

End LoudModel.

(** ** The two calls as the module has them *)

Section Calls.
Context {D : Type} `{Scalar F}.
Implicit Types self : model D F.

(** [get_cross_params] stops at line 251: [self.get_output_dims] is no
    attribute of a model. *)
Lemma get_cross_params_raises self : get_cross_params self = Raise AttributeError.
Proof. reflexivity. Qed.

(** [plot_correlations] stops at line 195, for the same reason. *)
Lemma plot_correlations_raises self : plot_correlations self = Raise AttributeError.
Proof. reflexivity. Qed.

(** Were [m] and the dictionary there, the function would stop at line
    219: [plt] is no name of the module. *)
Lemma matrix_and_figure_raises (m d Qn : nat) (cp : cross_params F) :
  (0 < d)%nat → matrix_and_figure m d Qn cp = Raise NameError.
Proof.
  intros Hd. unfold matrix_and_figure, corr_coef_matrix.
  by rewrite decide_False by lia.
Qed.

End Calls.

(** ** Entries of the cross-parameter tensor *)

(** C4: the call [get_cross_params()] raises [AttributeError] at line 251
    on every store and returns no tensor.  For given [m] and [d], lines
    253-290 compute the closed forms: on a populated store, for every
    component [q] and channel pair [(i, j)],
    [covariance[i,j,n,q] = 2 * (variance[q,i,n] * variance[q,j,n]) / sv[n]]
    for every input dimension [n], and
    [magnitude[i,j,q] = magnitude[q,i] * magnitude[q,j]
       * exp(-1/4 * sum_n (mean[q,i,n] - mean[q,j,n])^2 / sv[n])],
    where [sv[n] = variance[q,i,n] + variance[q,j,n]] and the sum is
    [f_sum], numpy's [.sum()] of the [d] quotients. *)
Theorem cross_covariance_and_magnitude {D : Type} `{Scalar F}
    (self : model D F) (m d q i j : nat) :
  get_cross_params self = Raise AttributeError
  ∧ (well_shaped m d self = true →
     (q < Z.to_nat (Q self))%nat → (i < m)%nat → (j < m)%nat →
     ∃ cp, cross_params_loops m d self = Ok cp
       ∧ (∀ n, (n < d)%nat →
            covariance cp i j n q
            = f_div (f_mul f_two (f_mul (variance_of self q i n) (variance_of self q j n)))
                    (f_add (variance_of self q i n) (variance_of self q j n)))
       ∧ magnitude cp i j q
         = f_mul (f_mul (magnitude_of self q i) (magnitude_of self q j))
             (f_exp (f_mul f_neg_quarter
                (f_sum ((λ n,
                   f_div (f_mul (f_sub (mean_of self q i n) (mean_of self q j n))
                                (f_sub (mean_of self q i n) (mean_of self q j n)))
                         (f_add (variance_of self q i n) (variance_of self q j n)))
                   <$> seq 0 d))))).
Proof.
  split; [reflexivity|]. intros Hshape Hq Hi Hj.
  destruct (cross_params_loops_agree self m d Hshape) as (cp & Hrun & Hcm & Hmag & _).
  exists cp. split_and!; [done| |].
  - intros n Hn. by destruct (Hcm q i j n Hi Hj Hn Hq) as [-> _].
  - by rewrite (Hmag q i j Hi Hj Hq).
Qed.

(** In binary64 on any platform.  On [two_dim_model], channels [(0, 1)]:
    the call raises; for [m = 2] and [d = 2] the covariance is
    [2 * (1 * 1) / (1 + 1) = 1] in both input dimensions and the magnitude
    is [1 * 1 * exp(-0.25 * sum([2, 2]))], the two quotients being
    [(1 - 3)^2 / 2] and [(2 - 4)^2 / 2].  On [loud_model], for [m = 1] and
    [d = 1], on a platform that keeps the laws: the covariance is [1] and
    the magnitude is [2 * 2 * exp(-0.25 * sum([0])) = 4]. *)
Lemma cross_covariance_and_magnitude_witness :
  on_floats (λ p,
    @get_cross_params string float (float_scalar p) two_dim_model = Raise AttributeError
    ∧ ∃ cp, @cross_params_loops string float (float_scalar p) 2 2 two_dim_model = Ok cp
        ∧ covariance cp 0 1 0 0 = 1%float ∧ covariance cp 0 1 1 0 = 1%float
        ∧ magnitude cp 0 1 0
          = PrimFloat.mul 1 (np_exp p (PrimFloat.mul (-0.25) (np_sum p [2; 2]%float))))%nat
  ∧ on_numpy (λ p,
      ∃ cp, @cross_params_loops string float (float_scalar p) 1 1 loud_model = Ok cp
        ∧ covariance cp 0 0 0 0 = 1%float ∧ magnitude cp 0 0 0 = 4%float)%nat.
Proof.
  split.
  - intros p.
    destruct (@cross_covariance_and_magnitude string float (float_scalar p)
                two_dim_model 2 2 0 0 1)%nat as [Hcall Hloops].
    split; [exact Hcall|].
    destruct Hloops as (cp & Hrun & Hcov & Hmag); [reflexivity | simpl; lia | lia | lia |].
    exists cp. split; [exact Hrun|].
    rewrite (Hcov 0%nat), (Hcov 1%nat), Hmag by lia. split_and!; reflexivity.
  - apply on_numpy_intro. intros p Hp.
    destruct (@cross_covariance_and_magnitude string float (float_scalar p)
                loud_model 1 1 0 0 0)%nat as [_ Hloud].
    destruct Hloud as (cp & Hrun & Hcov & Hmag); [reflexivity | simpl; lia | lia | lia |].
    exists cp. split; [exact Hrun|].
    rewrite (Hcov 0%nat), Hmag by lia. split; [reflexivity|].
    exact (loud_magnitude p Hp).
Defined.

(** C3 (amended): for given [m] and [d], on a populated store, for every
    component [q] and channel pair [(i, j)], lines 282-288 of
    [get_cross_params] store [phase[i,j,q] = phase[q,i] - phase[q,j]] and,
    for every input dimension [n],
    [delay[i,j,n,q] = delay[q,i,n] - delay[q,j,n]]: channel [i] minus
    channel [j], as [np.subtract.outer] lays it out. *)
Theorem cross_phase_and_delay {D : Type} `{Scalar F}
    (self : model D F) (m d q i j : nat) :
  well_shaped m d self = true →
  (q < Z.to_nat (Q self))%nat → (i < m)%nat → (j < m)%nat →
  ∃ cp, cross_params_loops m d self = Ok cp
    ∧ phase cp i j q = f_sub (phase_of self q i) (phase_of self q j)
    ∧ ∀ n, (n < d)%nat →
        delay cp i j n q = f_sub (delay_of self q i n) (delay_of self q j n).
Proof.
  intros Hshape Hq Hi Hj.
  destruct (cross_params_loops_agree self m d Hshape) as (cp & Hrun & _ & _ & Hph & Hdl).
  exists cp. split_and!; [done| |].
  - by rewrite (Hph q i j Hi Hj Hq).
  - intros n Hn. by rewrite (Hdl q i j n Hi Hj Hn Hq).
Qed.

(** On [two_dim_model], channels [(0, 1)], for [m = 2] and [d = 2]:
    phase [1 - 3], delay in dimension [1] is [2 - 5]. *)
Lemma cross_phase_and_delay_witness :
  on_floats (λ p,
    ∃ cp, @cross_params_loops string float (float_scalar p) 2 2 two_dim_model = Ok cp
      ∧ phase cp 0 1 0 = (-2)%float ∧ delay cp 0 1 1 0 = (-3)%float)%nat.
Proof.
  intros p.
  destruct (@cross_phase_and_delay string float (float_scalar p)
              two_dim_model 2 2 0 0 1)%nat as (cp & Hrun & Hph & Hdl);
    [reflexivity | simpl; lia | lia | lia |].
  exists cp. split; [exact Hrun|].
  split; [rewrite Hph | rewrite (Hdl 1%nat) by lia]; reflexivity.
Defined.

(** On [two_dim_model] the call returns nothing, and for [m = 2],
    [d = 2] the cross-phase and cross-delay stored for channels [(0, 1)]
    are [-2] and [-3], not channel [1] minus channel [0], which is [2]
    and [3]. *)
Lemma cross_phase_sign_counterexample :
  on_floats (λ p,
    (∀ r, @get_cross_params string float (float_scalar p) two_dim_model ≠ Ok r)
    ∧ ∃ cp, @cross_params_loops string float (float_scalar p) 2 2 two_dim_model = Ok cp
      ∧ phase cp 0 1 0 = (-2)%float
      ∧ PrimFloat.sub (@phase_of string float (float_scalar p) two_dim_model 0 1)
                      (@phase_of string float (float_scalar p) two_dim_model 0 0) = 2%float
      ∧ phase cp 0 1 0
        ≠ PrimFloat.sub (@phase_of string float (float_scalar p) two_dim_model 0 1)
                        (@phase_of string float (float_scalar p) two_dim_model 0 0)
      ∧ delay cp 0 1 1 0 = (-3)%float
      ∧ delay cp 0 1 1 0
        ≠ PrimFloat.sub (@delay_of string float (float_scalar p) two_dim_model 0 1 1)
                        (@delay_of string float (float_scalar p) two_dim_model 0 0 1))%nat.
Proof.
  intros p. split; [intros r; discriminate|].
  destruct (@cross_params_loops_agree string float (float_scalar p)
              two_dim_model 2 2 eq_refl)%nat as (cp & Hrun & _ & _ & Hph & Hdl).
  exists cp. split; [exact Hrun|].
  rewrite Hph, Hdl by (simpl; lia).
  split_and!; try reflexivity; vm_compute; discriminate.
Qed.

(** C1 (amended): lines 253-290 of [get_cross_params] have no guard for
    [sv = 0].  For given [m] and [d], on binary64 numbers and any platform,
    when [variance[q,i,n]] and [variance[q,j,n]] are zero in every input
    dimension, the loops run to their end, and in every input dimension
    [covariance[i,j,n,q]] is [nan] and [mean[i,j,n,q]], a division by
    [sv[n] = 0], is [nan] or an infinity: [nan] when the sum of the two dot
    products is a zero or [nan]. *)
Theorem zero_variance_yields_nan {D : Type} (p : platform)
    (self : model D float) (m d q i j : nat) :
  well_shaped m d self = true →
  (q < Z.to_nat (Q self))%nat → (i < m)%nat → (j < m)%nat →
  (∀ n, (n < d)%nat →
     is_zero (@variance_of D float (float_scalar p) self q i n) = true
     ∧ is_zero (@variance_of D float (float_scalar p) self q j n) = true) →
  ∃ cp, @cross_params_loops D float (float_scalar p) m d self = Ok cp
    ∧ ∀ n, (n < d)%nat →
        covariance cp i j n q = nan
        ∧ is_finite (mean cp i j n q) = false
        ∧ (let num := PrimFloat.add (@var_dot_mean D float (float_scalar p) self d q i j)
                                    (@var_dot_mean D float (float_scalar p) self d q j i) in
           is_zero num = true ∨ num = nan → mean cp i j n q = nan).
Proof.
  intros Hshape Hq Hi Hj Hzero.
  destruct (@cross_params_loops_agree D float (float_scalar p) self m d Hshape)
    as (cp & Hrun & Hcm & _).
  exists cp. split; [done|]. intros n Hn.
  destruct (Hcm q i j n Hi Hj Hn Hq) as [-> ->].
  destruct (Hzero n Hn) as [Hzi Hzj]. split; [by apply zero_over_zero_cov|].
  by apply div_by_zero, add_zeros.
Qed.

(** On [zero_variance_model], channels [(0, 1)], for [m = 2] and
    [d = 1]. *)
Lemma zero_variance_yields_nan_witness :
  on_floats (λ p,
    ∃ cp, @cross_params_loops string float (float_scalar p) 2 1 zero_variance_model = Ok cp
      ∧ covariance cp 0 1 0 0 = nan
      ∧ is_finite (mean cp 0 1 0 0) = false)%nat.
Proof.
  intros p.
  destruct (zero_variance_yields_nan p zero_variance_model 2 1 0 0 1)%nat
    as (cp & Hrun & Hnan); [reflexivity | simpl; lia | lia | lia | |].
  - intros n Hn. replace n with 0%nat by lia. split; reflexivity.
  - exists cp. split; [exact Hrun|].
    destruct (Hnan 0%nat) as (Hcov & Hmean & _); [lia|]. by split.
Defined.

(** On [zero_variance_model] the call returns nothing.  For [m = 2] and
    [d = 1] the entry of channels [(0, 1)] is [nan] in the covariance,
    where the guard would give [0], and [nan] or an infinity in the mean,
    where it would give [(1 + 3) / 2 = 2]. *)
Lemma zero_variance_counterexample :
  on_floats (λ p,
    (∀ r, @get_cross_params string float (float_scalar p) zero_variance_model ≠ Ok r)
    ∧ ∃ cp, @cross_params_loops string float (float_scalar p) 2 1 zero_variance_model = Ok cp
      ∧ is_nan (covariance cp 0 1 0 0) = true
      ∧ covariance cp 0 1 0 0 ≠ 0%float
      ∧ is_finite (mean cp 0 1 0 0) = false
      ∧ mean cp 0 1 0 0 ≠ 2%float)%nat.
Proof.
  intros p. split; [intros r; discriminate|].
  destruct (@cross_params_loops_agree string float (float_scalar p)
              zero_variance_model 2 1 eq_refl)%nat as (cp & Hrun & Hcm & _).
  exists cp. split; [exact Hrun|].
  destruct (Hcm 0 0 1 0)%nat as [Hcov Hmean]; [simpl; lia..|].
  assert (is_finite (mean cp 0 1 0 0)%nat = false) as Hnf.
  { rewrite Hmean. by apply div_by_zero. }
  rewrite Hcov. split_and!; [by vm_compute | by vm_compute | exact Hnf |].
  intros Heq. by rewrite Heq in Hnf.
Qed.

(** C2: the cross-mean on the two-dimensional store.  The call raises at
    line 251.  For [m = 2] and [d = 2], lines 277-278 store for channels
    [(0, 1)] the number [(dot([1, 1], [3, 4]) + dot([1, 1], [1, 2])) / 2]
    in both input dimensions ([10 / 2 = 5] with an exact dot product); the
    per-dimension closed form gives [2] in dimension [0] and [3] in
    dimension [1]. *)
Lemma cross_mean_mixes_dimensions :
  on_floats (λ p,
    @get_cross_params string float (float_scalar p) two_dim_model = Raise AttributeError
    ∧ ∃ cp, @cross_params_loops string float (float_scalar p) 2 2 two_dim_model = Ok cp
      ∧ mean cp 0 1 0 0
        = PrimFloat.div (PrimFloat.add (np_dot p [1; 1]%float [3; 4]%float)
                                       (np_dot p [1; 1]%float [1; 2]%float)) 2
      ∧ mean cp 0 1 1 0 = mean cp 0 1 0 0
      ∧ @elementwise_mean string float (float_scalar p) two_dim_model 0 0 1 0 = 2%float
      ∧ @elementwise_mean string float (float_scalar p) two_dim_model 0 0 1 1 = 3%float
      ∧ ¬ (mean cp 0 1 0 0 = 2%float ∧ mean cp 0 1 1 0 = 3%float))%nat.
Proof.
  intros p. split; [reflexivity|].
  destruct (@cross_params_loops_agree string float (float_scalar p)
              two_dim_model 2 2 eq_refl)%nat as (cp & Hrun & Hcm & _).
  exists cp. split; [exact Hrun|].
  destruct (Hcm 0 0 1 0)%nat as [_ H0]; [simpl; lia..|].
  destruct (Hcm 0 0 1 1)%nat as [_ H1]; [simpl; lia..|].
  assert (mean cp 0 1 1 0 = mean cp 0 1 0 0)%nat as Hsame by (by rewrite H0, H1).
  split_and!; [by rewrite H0 | exact Hsame | reflexivity | reflexivity |].
  intros [Hm0 Hm1]. rewrite Hsame, Hm0 in Hm1. by vm_compute in Hm1.
Qed.

(** C5 (amended): for given [m] and [d], on binary64 numbers and any
    platform, on the diagonal of the tensor that lines 253-290 fill,
    [phase[i,i,q]] is [0] when the channel's phase is finite,
    [delay[i,i,n,q]] is [0] when its delay is finite, and
    [covariance[i,i,n,q]] is [2 * (v * v) / (v + v)] for the channel's
    variance [v], which is [v] up to the rounding of the three operations.
    (Nothing is said of [mean[i,i,n,q]].) *)
Theorem diagonal_in_binary64 {D : Type} (p : platform)
    (self : model D float) (m d q i : nat) :
  well_shaped m d self = true →
  (q < Z.to_nat (Q self))%nat → (i < m)%nat →
  ∃ cp, @cross_params_loops D float (float_scalar p) m d self = Ok cp
    ∧ (is_finite (@phase_of D float (float_scalar p) self q i) = true →
       phase cp i i q = 0%float)
    ∧ ∀ n, (n < d)%nat →
        let v := @variance_of D float (float_scalar p) self q i n in
        covariance cp i i n q
        = PrimFloat.div (PrimFloat.mul 2 (PrimFloat.mul v v)) (PrimFloat.add v v)
        ∧ (is_finite (@delay_of D float (float_scalar p) self q i n) = true →
           delay cp i i n q = 0%float).
Proof.
  intros Hshape Hq Hi.
  destruct (@cross_params_loops_agree D float (float_scalar p) self m d Hshape)
    as (cp & Hrun & Hcm & _ & Hph & Hdl).
  exists cp. split_and!; [done| |].
  - intros Hfin. rewrite (Hph q i i Hi Hi Hq). by apply sub_self.
  - intros n Hn v. destruct (Hcm q i i n Hi Hi Hn Hq) as [-> _]. split; [done|].
    intros Hfin. rewrite (Hdl q i i n Hi Hi Hn Hq). by apply sub_self.
Qed.

(** On [two_dim_model], channel [0], for [m = 2] and [d = 2]. *)
Lemma diagonal_in_binary64_witness :
  on_floats (λ p,
    ∃ cp, @cross_params_loops string float (float_scalar p) 2 2 two_dim_model = Ok cp
      ∧ phase cp 0 0 0 = 0%float
      ∧ covariance cp 0 0 1 0 = 1%float
      ∧ delay cp 0 0 1 0 = 0%float)%nat.
Proof.
  intros p.
  destruct (diagonal_in_binary64 p two_dim_model 2 2 0 0)%nat
    as (cp & Hrun & Hph & Hrest); [reflexivity | simpl; lia | lia |].
  exists cp. split; [exact Hrun|].
  destruct (Hrest 1%nat) as [Hcov Hdl]; [lia|].
  split_and!; [by apply Hph | by rewrite Hcov | by apply Hdl].
Defined.

(** On [tenth_model] the call returns nothing.  For [m = 1] and [d = 1]
    the diagonal covariance of the channel, whose variance is [0.1], is
    [2 * (0.1 * 0.1) / (0.1 + 0.1) = 0.10000000000000002], the next
    binary64 number: the two differ, under [==] as well.  On
    [unbounded_model], whose phase and delay are [inf], the diagonal phase
    and delay are [inf - inf = nan]. *)
Lemma diagonal_covariance_counterexample :
  on_floats (λ p,
    (∀ r, @get_cross_params string float (float_scalar p) tenth_model ≠ Ok r)
    ∧ (∃ cp, @cross_params_loops string float (float_scalar p) 1 1 tenth_model = Ok cp
        ∧ @variance_of string float (float_scalar p) tenth_model 0 0 0
          = 0x1.999999999999ap-4%float
        ∧ covariance cp 0 0 0 0 = 0x1.999999999999bp-4%float
        ∧ PrimFloat.eqb (covariance cp 0 0 0 0)
            (@variance_of string float (float_scalar p) tenth_model 0 0 0) = false)
    ∧ ∃ cp, @cross_params_loops string float (float_scalar p) 1 1 unbounded_model = Ok cp
        ∧ phase cp 0 0 0 = nan ∧ delay cp 0 0 0 0 = nan)%nat.
Proof.
  intros p. split; [intros r; discriminate|]. split.
  - destruct (@cross_params_loops_agree string float (float_scalar p)
                tenth_model 1 1 eq_refl)%nat as (cp & Hrun & Hcm & _).
    exists cp. split; [exact Hrun|].
    destruct (Hcm 0 0 0 0)%nat as [-> _]; [simpl; lia..|].
    split_and!; reflexivity.
  - destruct (@cross_params_loops_agree string float (float_scalar p)
                unbounded_model 1 1 eq_refl)%nat as (cp & Hrun & _ & _ & Hph & Hdl).
    exists cp. split; [exact Hrun|].
    rewrite Hph, Hdl by (simpl; lia). split; reflexivity.
Qed.

(** The diagonal of the cross-mean on the two-dimensional store, for
    [m = 2] and [d = 2]: channel [0] has mean [1] in dimension [0] and [2]
    in dimension [1]; lines 277-278 store one number for both. *)
Lemma diagonal_mean_mixes_dimensions :
  on_floats (λ p,
    ∃ cp, @cross_params_loops string float (float_scalar p) 2 2 two_dim_model = Ok cp
      ∧ mean cp 0 0 1 0 = mean cp 0 0 0 0
      ∧ @mean_of string float (float_scalar p) two_dim_model 0 0 0 = 1%float
      ∧ @mean_of string float (float_scalar p) two_dim_model 0 0 1 = 2%float)%nat.
Proof.
  intros p.
  destruct (@cross_params_loops_agree string float (float_scalar p)
              two_dim_model 2 2 eq_refl)%nat as (cp & Hrun & Hcm & _).
  exists cp. split; [exact Hrun|].
  destruct (Hcm 0 0 0 0)%nat as [_ H0]; [simpl; lia..|].
  destruct (Hcm 0 0 0 1)%nat as [_ H1]; [simpl; lia..|].
  split_and!; [by rewrite H0, H1 | reflexivity | reflexivity].
Qed.

(** ** The correlation-coefficient matrix *)

Section Correlations.
Context `{Scalar F}.

Lemma foldl_seq_inv {St} (I : nat → St → Prop) (k : nat) (f : St → nat → St) (s : St) :
  I 0%nat s →
  (∀ x s, (x < k)%nat → I x s → I (S x) (f s x)) →
  I k (foldl f s (seq 0 k)).
Proof.
  intros H0 Hstep.
  assert (∀ n a s, (a + n = k)%nat → I a s → I k (foldl f s (seq a n))) as Hgen.
  { induction n as [|n IH]; intros a s0 Hk Ha; simpl.
    - by replace k with a by lia.
    - apply IH; [lia|]. apply Hstep; [lia|done]. }
  by apply (Hgen k 0%nat s).
Qed.

(** The two loops of lines 210-217 touch the diagonal cell
    [(i0, i0)] once, in iteration [i = j = i0], where the cell is divided
    by [norm]. *)
Lemma corr_loops_diagonal (m i0 : nat) (X nrm C0 : nat → nat → F) :
  (i0 < m)%nat →
  foldl (λ C i,
    foldl (λ C j,
      let C' := if decide (i ≠ j) then set_cell i j (X i j) C else C in
      set_cell i j (f_div (C' i j) (nrm i j)) C') C (seq 0 m)) C0 (seq 0 m) i0 i0
  = f_div (C0 i0 i0) (nrm i0 i0).
Proof.
  intros Hi0.
  pose (V := C0 i0 i0). pose (N := nrm i0 i0).
  assert (∀ i (C : nat → nat → F),
    C i0 i0 = (if decide (i0 < i)%nat then f_div V N else V) →
    foldl (λ C j,
      let C' := if decide (i ≠ j) then set_cell i j (X i j) C else C in
      set_cell i j (f_div (C' i j) (nrm i j)) C') C (seq 0 m) i0 i0
    = (if decide (i0 < S i)%nat then f_div V N else V)) as Hrow.
  { intros i C HC.
    etrans; [apply (foldl_seq_inv
      (λ j (C : nat → nat → F),
         C i0 i0 = if decide (i0 < i ∨ (i = i0 ∧ i0 < j))%nat then f_div V N else V))|].
    - rewrite HC. repeat case_decide; try done; lia.
    - intros j C1 Hj HC1. simpl. unfold set_cell at 1.
      destruct (decide (i0 = i ∧ i0 = j)) as [[<- <-]|Hne].
      + rewrite decide_False by (intros Hc; by apply Hc).
        rewrite HC1. repeat case_decide; try done; lia.
      + assert ((if decide (i ≠ j) then set_cell i j (X i j) C1 else C1) i0 i0 = C1 i0 i0)
          as ->.
        { destruct (decide (i ≠ j)); [|done]. unfold set_cell. by rewrite decide_False. }
        rewrite HC1. repeat case_decide; try done; lia.
    - simpl. repeat case_decide; try done; lia. }
  etrans; [apply (foldl_seq_inv
      (λ i (C : nat → nat → F),
         C i0 i0 = if decide (i0 < i)%nat then f_div V N else V))|].
  - by rewrite decide_False by lia.
  - intros i C _ HC. by apply Hrow.
  - simpl. by rewrite decide_True.
Qed.

Lemma corr_coef_matrix_diagonal (m d Qn : nat) (cp : cross_params F) (i : nat) :
  (0 < d)%nat → (i < m)%nat →
  ∃ C, corr_coef_matrix m d Qn cp = Ok C
    ∧ C i i = f_div (alpha_sum Qn cp i)
                (f_mul (f_sqrt (alpha_sum Qn cp i)) (f_sqrt (alpha_sum Qn cp i))).
Proof.
  intros Hd Hi. unfold corr_coef_matrix.
  rewrite decide_False by lia. eexists. split; [reflexivity|].
  rewrite corr_loops_diagonal by done.
  unfold fill_diagonal. by rewrite decide_True.
Qed.

End Correlations.

(** C6 (amended): for a given [m], lines 198-217 of [plot_correlations]
    turn every cross-parameter dictionary whose arrays have at least one
    input dimension into a matrix whose diagonal entry [(i, i)] is
    [S_i / (sqrt(S_i) * sqrt(S_i))], where [S_i] is the sum over the
    components of [alpha[i,i,q] = magnitude[i,i,q] / sqrt(2 pi
    covariance[i,i,0,q])]: the sum that [fill_diagonal] writes is divided by
    [norm] in the loop like every other entry. *)
Theorem correlation_diagonal_normalised `{Scalar F}
    (m d Qn : nat) (cross_params : cross_params F) (i : nat) :
  (0 < d)%nat → (i < m)%nat →
  ∃ C, corr_coef_matrix m d Qn cross_params = Ok C
    ∧ C i i = f_div (alpha_sum Qn cross_params i)
                (f_mul (f_sqrt (alpha_sum Qn cross_params i))
                       (f_sqrt (alpha_sum Qn cross_params i))).
Proof. apply corr_coef_matrix_diagonal. Qed.

(** On [loud_model], for [m = 1], [d = 1], in binary64 on any
    platform. *)
Lemma correlation_diagonal_normalised_witness :
  on_floats (λ p,
    ∃ cp C, @cross_params_loops string float (float_scalar p) 1 1 loud_model = Ok cp
      ∧ @corr_coef_matrix float (float_scalar p) 1 1 1 cp = Ok C
      ∧ C 0%nat 0%nat
        = PrimFloat.div (@alpha_sum float (float_scalar p) 1 cp 0)
            (PrimFloat.mul (PrimFloat.sqrt (@alpha_sum float (float_scalar p) 1 cp 0))
                           (PrimFloat.sqrt (@alpha_sum float (float_scalar p) 1 cp 0)))).
Proof.
  intros p.
  destruct (@cross_params_loops_agree string float (float_scalar p) loud_model 1 1 eq_refl)
    as (cp & Hrun & _).
  exists cp.
  destruct (@correlation_diagonal_normalised float (float_scalar p) 1 1 1 cp 0)
    as (C & HC & Hdiag); [lia | lia |].
  by exists C.
Defined.

(** On [loud_model], in binary64.  On any platform the call returns
    nothing.  For [m = 1], [d = 1], on a platform that keeps the laws, the
    sum of [alpha] over the one component is
    [4 / sqrt(2 pi) = 1.5957691216057308], and the diagonal entry is that
    number divided by the square of its root, [1.0000000000000002]; from
    there the rendering would raise [NameError]. *)
Lemma correlation_diagonal_counterexample :
  on_floats (λ p,
    ∀ C, @plot_correlations string float (float_scalar p) loud_model ≠ Ok C)
  ∧ on_numpy (λ p,
      ∃ cp C, @cross_params_loops string float (float_scalar p) 1 1 loud_model = Ok cp
        ∧ @corr_coef_matrix float (float_scalar p) 1 1 1 cp = Ok C
        ∧ @alpha_sum float (float_scalar p) 1 cp 0 = 0x1.9884533d43651p+0%float
        ∧ C 0%nat 0%nat = 0x1.0000000000001p+0%float
        ∧ PrimFloat.eqb (C 0%nat 0%nat) (@alpha_sum float (float_scalar p) 1 cp 0)
          = false
        ∧ @matrix_and_figure float (float_scalar p) 1 1 1 cp = Raise NameError).
Proof.
  split; [intros p C; discriminate|]. apply on_numpy_intro. intros p Hp.
  destruct (@cross_params_loops_agree string float (float_scalar p) loud_model 1 1 eq_refl)
    as (cp & Hrun & Hcm & Hmag & _).
  exists cp.
  destruct (@corr_coef_matrix_diagonal float (float_scalar p) 1 1 1 cp 0)
    as (C & HC & Hdiag); [lia | lia |].
  exists C. split; [exact Hrun|]. split; [exact HC|].
  destruct (Hcm 0 0 0 0)%nat as [Hcov _]; [simpl; lia..|].
  pose proof (Hmag 0 0 0 ltac:(lia) ltac:(lia) ltac:(simpl; lia))%nat as Hm.
  rewrite (loud_magnitude p Hp) in Hm.
  assert (@alpha_sum float (float_scalar p) 1 cp 0 = 0x1.9884533d43651p+0%float) as Hsum.
  { unfold alpha_sum, alpha_of. simpl fmap. rewrite Hm, Hcov.
    change (f_sum ?l) with (np_sum p l).
    etrans; [apply (sum_single p Hp)|]; reflexivity. }
  rewrite Hdiag, Hsum. split_and!; reflexivity.
Qed.

(** * Further properties *)

(** ** Symmetry of the cross parameters *)

Section Symmetry.
Context {D : Type} `{ScalarLaws F}.
Implicit Types self : model D F.

Lemma sv_at_sym self (q i j n : nat) : sv_at self q i j n = sv_at self q j i n.
Proof using Type*. unfold sv_at. apply f_add_comm. Qed.

Lemma covariance_at_sym self (q i j n : nat) :
  covariance_at self q i j n = covariance_at self q j i n.
Proof using Type*.
  unfold covariance_at. rewrite (sv_at_sym self q i j n).
  by rewrite (f_mul_comm (variance_of self q i n)).
Qed.

Lemma mean_at_sym self (d q i j n : nat) :
  mean_at self d q i j n = mean_at self d q j i n.
Proof using Type*.
  unfold mean_at. rewrite (sv_at_sym self q i j n).
  by rewrite (f_add_comm (var_dot_mean self d q i j)).
Qed.

Lemma magnitude_at_sym self (d q i j : nat) :
  magnitude_at self d q i j = magnitude_at self d q j i.
Proof using Type*.
  unfold magnitude_at. rewrite (f_mul_comm (magnitude_of self q i)).
  do 3 f_equal. apply (f_equal f_sum). apply list_fmap_ext. intros _ n _.
  by rewrite (sv_at_sym self q i j n), (f_sub_sq (mean_of self q i n)).
Qed.

End Symmetry.



(** X4: for given [m] and [d], in binary64 on a platform that keeps the
    laws: when two channels have the same finite mean in every input
    dimension, and the sum of their variances is neither zero nor [nan] in
    any, the cross-magnitude that line 281 stores is the product of the two
    magnitudes times [exp(0) = 1]; in particular
    [magnitude[i,i,q] = magnitude[q,i]^2 * 1]. *)
Theorem cross_magnitude_equal_means {D : Type} (p : platform)
    (self : model D float) (m d q i j : nat) :
  numpy_laws p →
  well_shaped m d self = true →
  (q < Z.to_nat (Q self))%nat → (i < m)%nat → (j < m)%nat →
  (∀ n, (n < d)%nat →
     @mean_of D float (float_scalar p) self q i n
     = @mean_of D float (float_scalar p) self q j n
     ∧ is_finite (@mean_of D float (float_scalar p) self q i n) = true
     ∧ is_zero (@sv_at D float (float_scalar p) self q i j n) = false
     ∧ is_nan (@sv_at D float (float_scalar p) self q i j n) = false) →
  ∃ cp, @cross_params_loops D float (float_scalar p) m d self = Ok cp
    ∧ magnitude cp i j q
      = PrimFloat.mul
          (PrimFloat.mul (@magnitude_of D float (float_scalar p) self q i)
                         (@magnitude_of D float (float_scalar p) self q j)) 1.
Proof.
  intros Hp Hshape Hq Hi Hj Hmean.
  destruct (@cross_params_loops_agree D float (float_scalar p) self m d Hshape)
    as (cp & Hrun & _ & Hmag & _).
  exists cp. split; [done|].
  rewrite (Hmag q i j Hi Hj Hq). unfold magnitude_at.
  change (f_mul ?a (f_exp ?x)) with (PrimFloat.mul a (np_exp p x)).
  f_equal. apply (exp_zero p Hp).
  change (f_mul f_neg_quarter ?s) with (PrimFloat.mul (-0.25) s).
  apply neg_quarter_of_zero.
  change (f_sum ?l) with (np_sum p l). apply (sum_zeros p Hp).
  apply Forall_fmap, Forall_forall. intros n Hn%elem_of_seq. simpl.
  destruct (Hmean n ltac:(lia)) as (Heq & Hfin & Hsvz & Hsvn).
  apply zero_div; [|done|done].
  change (f_mul ?a ?b) with (PrimFloat.mul a b).
  change (f_sub ?a ?b) with (PrimFloat.sub a b).
  rewrite <- Heq. by rewrite sub_self.
Qed.

(** On [twin_model], whose two channels have mean [1], variances [1] and
    [2] and magnitudes [1] and [2], for [m = 2] and [d = 1]. *)
Lemma cross_magnitude_equal_means_witness :
  on_numpy (λ p,
    ∃ cp, @cross_params_loops string float (float_scalar p) 2 1 twin_model = Ok cp
      ∧ magnitude cp 0%nat 1%nat 0%nat = 2%float).
Proof.
  apply on_numpy_intro. intros p Hp.
  destruct (cross_magnitude_equal_means p twin_model 2 1 0 0 1 Hp)
    as (cp & Hrun & Hmag); [reflexivity | simpl; lia | lia | lia | |].
  - intros n Hn. replace n with 0%nat by lia. split_and!; reflexivity.
  - exists cp. split; [exact Hrun|]. by rewrite Hmag.
Defined.

(** X5: for given [m] and [d], in binary64 on any platform, the
    cross-phase and the cross-delay that lines 282-288 store change sign
    when the two channels are exchanged: entry [(i, j)] is the opposite of
    entry [(j, i)], or both are [+0] (when the two channels' values are
    equal). *)
Theorem cross_phase_delay_antisymmetric {D : Type} (p : platform)
    (self : model D float) (m d q i j : nat) :
  well_shaped m d self = true →
  (q < Z.to_nat (Q self))%nat → (i < m)%nat → (j < m)%nat →
  ∃ cp, @cross_params_loops D float (float_scalar p) m d self = Ok cp
    ∧ (phase cp i j q = PrimFloat.opp (phase cp j i q)
       ∨ (phase cp i j q = 0%float ∧ phase cp j i q = 0%float))
    ∧ ∀ n, (n < d)%nat →
        delay cp i j n q = PrimFloat.opp (delay cp j i n q)
        ∨ (delay cp i j n q = 0%float ∧ delay cp j i n q = 0%float).
Proof.
  intros Hshape Hq Hi Hj.
  destruct (@cross_params_loops_agree D float (float_scalar p) self m d Hshape)
    as (cp & Hrun & _ & _ & Hph & Hdl).
  exists cp. split_and!; [done| |].
  - rewrite (Hph q i j Hi Hj Hq), (Hph q j i Hj Hi Hq). apply float_sub_antisym.
  - intros n Hn.
    rewrite (Hdl q i j n Hi Hj Hn Hq), (Hdl q j i n Hj Hi Hn Hq).
    apply float_sub_antisym.
Qed.

(** On [two_dim_model], channels [(0, 1)], for [m = 2] and [d = 2]:
    phases [-2] and [2], delays [-3] and [3] in dimension [1]. *)
Lemma cross_phase_delay_antisymmetric_witness :
  on_floats (λ p,
    ∃ cp, @cross_params_loops string float (float_scalar p) 2 2 two_dim_model = Ok cp
      ∧ (phase cp 0 1 0 = PrimFloat.opp (phase cp 1 0 0)
         ∨ (phase cp 0 1 0 = 0%float ∧ phase cp 1 0 0 = 0%float))
      ∧ ∀ n, (n < 2)%nat →
          delay cp 0 1 n 0 = PrimFloat.opp (delay cp 1 0 n 0)
          ∨ (delay cp 0 1 n 0 = 0%float ∧ delay cp 1 0 n 0 = 0%float))%nat.
Proof.
  intros p.
  apply (cross_phase_delay_antisymmetric p two_dim_model 2 2 0 0 1)%nat;
    [reflexivity | simpl; lia | lia | lia].
Defined.

(** ** Every cell of the correlation-coefficient matrix *)

Section CorrelationCells.
Context `{Scalar F}.

Lemma for_each_app {X St} (xs ys : list X) (body : X → St → result St) (s : St) :
  Py.for_each (xs ++ ys) body s = (s' ← Py.for_each xs body s; Py.for_each ys body s').
Proof.
  revert s. induction xs as [|x xs IH]; intros s; simpl; [done|].
  destruct (body x s) as [s1|e]; simpl; [apply IH|done].
Qed.

(** The two loops of lines 210-217 touch the cell [(i0, j0)] once,
    in iteration [i = i0], [j = j0]: off the diagonal it is overwritten by
    the weighted sum, and in either case it is then divided by [norm]. *)
Lemma corr_loops_cell (m i0 j0 : nat) (X nrm C0 : nat → nat → F) :
  (i0 < m)%nat → (j0 < m)%nat →
  foldl (λ C i,
    foldl (λ C j,
      let C' := if decide (i ≠ j) then set_cell i j (X i j) C else C in
      set_cell i j (f_div (C' i j) (nrm i j)) C') C (seq 0 m)) C0 (seq 0 m) i0 j0
  = f_div (if decide (i0 ≠ j0) then X i0 j0 else C0 i0 j0) (nrm i0 j0).
Proof.
  intros Hi0 Hj0.
  pose (V := C0 i0 j0).
  pose (W := f_div (if decide (i0 ≠ j0) then X i0 j0 else V) (nrm i0 j0)).
  assert (∀ i (C : nat → nat → F),
    C i0 j0 = (if decide (i0 < i)%nat then W else V) →
    foldl (λ C j,
      let C' := if decide (i ≠ j) then set_cell i j (X i j) C else C in
      set_cell i j (f_div (C' i j) (nrm i j)) C') C (seq 0 m) i0 j0
    = (if decide (i0 < S i)%nat then W else V)) as Hrow.
  { intros i C HC.
    etrans; [apply (foldl_seq_inv
      (λ j (C : nat → nat → F),
         C i0 j0 = if decide (i0 < i ∨ (i = i0 ∧ j0 < j))%nat then W else V))|].
    - rewrite HC. repeat case_decide; try done; lia.
    - intros j C1 Hj HC1. simpl. unfold set_cell at 1.
      destruct (decide (i0 = i ∧ j0 = j)) as [[<- <-]|Hne].
      + unfold W. destruct (decide (i0 ≠ j0)) as [Hd|Hd].
        * unfold set_cell. rewrite (decide_True (P := i0 = i0 ∧ j0 = j0)) by done.
          by rewrite decide_True by lia.
        * rewrite HC1. repeat case_decide; try done; lia.
      + assert ((if decide (i ≠ j) then set_cell i j (X i j) C1 else C1) i0 j0 = C1 i0 j0)
          as ->.
        { destruct (decide (i ≠ j)); [|done]. unfold set_cell. by rewrite decide_False. }
        rewrite HC1. repeat case_decide; try done; lia.
    - simpl. repeat case_decide; try done; lia. }
  etrans; [apply (foldl_seq_inv
      (λ i (C : nat → nat → F),
         C i0 j0 = if decide (i0 < i)%nat then W else V))|].
  - by rewrite decide_False by lia.
  - intros i C _ HC. by apply Hrow.
  - simpl. by rewrite decide_True.
Qed.

Lemma corr_coef_matrix_cells (m d Qn : nat) (cp : cross_params F) :
  (0 < d)%nat →
  ∃ C, corr_coef_matrix m d Qn cp = Ok C
    ∧ ∀ i j, (i < m)%nat → (j < m)%nat →
        C i j = f_div (if decide (i ≠ j) then weighted_sum Qn cp i j
                       else alpha_sum Qn cp i)
                  (f_mul (f_sqrt (alpha_sum Qn cp i)) (f_sqrt (alpha_sum Qn cp j))).
Proof.
  intros Hd. unfold corr_coef_matrix.
  rewrite decide_False by lia. eexists. split; [reflexivity|].
  intros i j Hi Hj. rewrite corr_loops_cell by done.
  unfold fill_diagonal. destruct (decide (i ≠ j)) as [Hne|Heq]; [done|].
  by rewrite decide_True by lia.
Qed.

End CorrelationCells.

(** X6: for a given [m], lines 198-217 of [plot_correlations] turn every
    cross-parameter dictionary whose arrays have at least one input
    dimension into a matrix whose off-diagonal entry [(i, j)] is
    [(alpha[i,j,:] * corr).sum()] divided by [sqrt(S_i) * sqrt(S_j)], where
    [corr = exp(-0.5 * delay^2 * cov) * cos(delay * mean + phase)], all
    read at input dimension [0], and [S_i] is the sum of [alpha[i,i,:]]. *)
Theorem correlation_off_diagonal `{Scalar F}
    (m d Qn : nat) (cross_params : cross_params F) (i j : nat) :
  (0 < d)%nat → (i < m)%nat → (j < m)%nat → i ≠ j →
  ∃ C, corr_coef_matrix m d Qn cross_params = Ok C
    ∧ C i j = f_div (weighted_sum Qn cross_params i j)
                (f_mul (f_sqrt (alpha_sum Qn cross_params i))
                       (f_sqrt (alpha_sum Qn cross_params j))).
Proof.
  intros Hd Hi Hj Hne.
  destruct (corr_coef_matrix_cells m d Qn cross_params Hd) as (C & Hrun & Hcell).
  exists C. split; [done|].
  rewrite (Hcell i j Hi Hj). by rewrite decide_True.
Qed.

(** On the dictionary that the loops give for [twin_model] with [m = 2]
    and [d = 1], entry [(0, 1)], in binary64 on any platform. *)
Lemma correlation_off_diagonal_witness :
  on_floats (λ p,
    ∃ cp C, @cross_params_loops string float (float_scalar p) 2 1 twin_model = Ok cp
      ∧ @corr_coef_matrix float (float_scalar p) 2 1 1 cp = Ok C
      ∧ C 0%nat 1%nat
        = PrimFloat.div (@weighted_sum float (float_scalar p) 1 cp 0 1)
            (PrimFloat.mul (PrimFloat.sqrt (@alpha_sum float (float_scalar p) 1 cp 0))
                           (PrimFloat.sqrt (@alpha_sum float (float_scalar p) 1 cp 1)))).
Proof.
  intros p.
  destruct (@cross_params_loops_agree string float (float_scalar p) twin_model 2 1 eq_refl)
    as (cp & Hrun & _).
  exists cp.
  destruct (@correlation_off_diagonal float (float_scalar p) 2 1 1 cp 0 1)
    as (C & HC & Hcell); [lia | lia | lia | lia |].
  by exists C.
Defined.

(** X9: for given [m] and [d >= 1], in binary64 on a platform that keeps
    the laws: if some component gives channel [i] a zero variance in the
    first input dimension, lines 253-290 of [get_cross_params] and lines
    198-217 of [plot_correlations] run to their end, and the whole row [i]
    and the whole column [i] of the matrix are [nan]. *)
Theorem correlation_nan_row {D : Type} (p : platform)
    (self : model D float) (m d i q : nat) :
  numpy_laws p →
  well_shaped m d self = true → (0 < d)%nat → (i < m)%nat →
  (q < Z.to_nat (Q self))%nat →
  is_zero (@variance_of D float (float_scalar p) self q i 0) = true →
  ∃ cp C, @cross_params_loops D float (float_scalar p) m d self = Ok cp
    ∧ @corr_coef_matrix float (float_scalar p) m d (Z.to_nat (Q self)) cp = Ok C
    ∧ ∀ j, (j < m)%nat → C i j = nan ∧ C j i = nan.
Proof.
  intros Hp Hshape Hd Hi Hq Hzero.
  destruct (@cross_params_loops_agree D float (float_scalar p) self m d Hshape)
    as (cp & Hrun & Hcm & _).
  destruct (@corr_coef_matrix_cells float (float_scalar p) m d (Z.to_nat (Q self)) cp Hd)
    as (C & Hplot & Hcell).
  exists cp, C. split_and!; [done|done|].
  assert (@alpha_sum float (float_scalar p) (Z.to_nat (Q self)) cp i = nan) as Hsum.
  { unfold alpha_sum. change (f_sum ?l) with (np_sum p l). apply (sum_nan p Hp).
    apply list_elem_of_fmap. exists q. split; [|apply elem_of_seq; lia].
    unfold alpha_of. destruct (Hcm q i i 0%nat Hi Hi Hd Hq) as [-> _].
    unfold covariance_at, sv_at. simpl.
    rewrite (zero_over_zero_cov _ _ Hzero Hzero).
    by rewrite float_mul_nan_r, float_div_nan_r. }
  intros j Hj. rewrite (Hcell i j Hi Hj), (Hcell j i Hj Hi), Hsum. simpl.
  change (PrimFloat.sqrt nan) with nan.
  rewrite float_mul_nan_l, float_mul_nan_r, !float_div_nan_r. done.
Qed.

(** On [zero_variance_model], channel [0], for [m = 2] and [d = 1]. *)
Lemma correlation_nan_row_witness :
  on_numpy (λ p,
    ∃ cp C, @cross_params_loops string float (float_scalar p) 2 1 zero_variance_model = Ok cp
      ∧ @corr_coef_matrix float (float_scalar p) 2 1 1 cp = Ok C
      ∧ ∀ j, (j < 2)%nat → C 0%nat j = nan ∧ C j 0%nat = nan).
Proof.
  apply on_numpy_intro. intros p Hp.
  apply (correlation_nan_row p zero_variance_model 2 1 0 0 Hp);
    [reflexivity | lia | lia | simpl; lia | reflexivity].
Defined.

(** ** Stores that cannot be read *)

Section Unreadable.
Context {D : Type} `{Scalar F}.
Implicit Types self : model D F.

Lemma param_absent self (k : nat) key :
  params self !! k = None → param self k key = Raise IndexError.
Proof. intros Hk. unfold param, component. by rewrite Hk. Qed.

Lemma param_missing_key self (k : nat) key c :
  params self !! k = Some c → c !! key = None → param self k key = Raise KeyError.
Proof. intros Hk Hc. unfold param, component, getkey. rewrite Hk. simpl. by rewrite Hc. Qed.

(** The first statement of the loop over [q] that reads the store: the
    variance in iteration [i = j = 0] when there is a channel, otherwise
    the phase. *)
Lemma component_body_raises self (m d k : nat) cp (e : exn) :
  param self k "variance" = Raise e → param self k "phase" = Raise e →
  component_body self m d k cp = Raise e.
Proof.
  intros Hvar Hph. unfold component_body. destruct m as [|m].
  - simpl. by rewrite Hph.
  - simpl. unfold cross_body. by rewrite Hvar.
Qed.

Lemma cross_params_loops_prefix self (m d k : nat) :
  well_shaped m d (with_Q self (Z.of_nat k)) = true →
  ∃ cp, Py.for_each (seq 0 k) (component_body self m d)
          (CrossParams (λ _ _ _ _, f_zero) (λ _ _ _ _, f_zero) (λ _ _ _, f_zero)
             (λ _ _ _ _, f_zero) (λ _ _ _, f_zero)) = Ok cp.
Proof.
  intros Hshape.
  destruct (cross_params_loops_agree (with_Q self (Z.of_nat k)) m d Hshape) as (cp & Hrun & _).
  exists cp. unfold cross_params_loops in Hrun. simpl in Hrun.
  destruct (Z.ltb_spec (Z.of_nat k) 0); [lia|].
  unfold Py.range in Hrun. by rewrite Nat2Z.id in Hrun.
Qed.

Lemma cross_params_loops_stop self (m d k : nat) (e : exn) :
  well_shaped m d (with_Q self (Z.of_nat k)) = true →
  Z.of_nat k < Q self →
  param self k "variance" = Raise e → param self k "phase" = Raise e →
  cross_params_loops m d self = Raise e.
Proof.
  intros Hshape Hk Hvar Hph. unfold cross_params_loops.
  destruct (Z.ltb_spec (Q self) 0); [lia|].
  unfold Py.range.
  replace (Z.to_nat (Q self)) with (k + S (Z.to_nat (Q self) - S k))%nat by lia.
  rewrite seq_app, for_each_app.
  destruct (cross_params_loops_prefix self m d k Hshape) as (cp & ->).
  simpl. by rewrite (component_body_raises self m d k cp e Hvar Hph).
Qed.

End Unreadable.

(** X10: the call [get_cross_params()] raises [AttributeError] at line
    251.  For given [m] and [d], when [self.params] holds fewer than [Q]
    dictionaries (those it holds following the schema), lines 253-290 raise
    [IndexError] at the first read of the missing one; in particular on the
    empty store of a freshly initialised model with [Q >= 1]. *)
Theorem cross_params_loops_short_store {D : Type} `{Scalar F}
    (self : model D F) (m d : nat) :
  well_shaped m d (with_Q self (Z.of_nat (length (params self)))) = true →
  Z.of_nat (length (params self)) < Q self →
  get_cross_params self = Raise AttributeError
  ∧ cross_params_loops m d self = Raise IndexError.
Proof.
  intros Hshape Hlen. split; [reflexivity|].
  apply (cross_params_loops_stop self m d (length (params self))); try done;
    apply param_absent, lookup_ge_None_2; lia.
Qed.

(** On [fresh_model]: [Q = 1] and no dictionary. *)
Lemma cross_params_loops_short_store_witness :
  on_floats (λ p,
    @get_cross_params string float (float_scalar p) fresh_model = Raise AttributeError
    ∧ @cross_params_loops string float (float_scalar p) 1 1 fresh_model = Raise IndexError).
Proof.
  intros p.
  apply (@cross_params_loops_short_store string float (float_scalar p) fresh_model 1 1);
    [reflexivity | simpl; lia].
Defined.

(** X11: the call [get_cross_params()] raises [AttributeError] at line
    251.  For given [m] and [d], a dictionary that is in the store but
    holds neither [variance] nor [phase], such as the noise entry, is not a
    mixture component: when [Q] reaches it, lines 253-290 raise
    [KeyError]. *)
Theorem cross_params_loops_missing_key {D : Type} `{Scalar F}
    (self : model D F) (m d k : nat) (c : gmap string (ndarray F)) :
  well_shaped m d (with_Q self (Z.of_nat k)) = true →
  Z.of_nat k < Q self →
  params self !! k = Some c → c !! "variance" = None → c !! "phase" = None →
  get_cross_params self = Raise AttributeError
  ∧ cross_params_loops m d self = Raise KeyError.
Proof.
  intros Hshape Hk Hc Hvar Hph. split; [reflexivity|].
  apply (cross_params_loops_stop self m d k); try done;
    by apply (param_missing_key self k _ c).
Qed.

(** On [noise_model] with [Q] raised to [2], the length of its store. *)
Lemma cross_params_loops_missing_key_witness :
  on_floats (λ p,
    @get_cross_params string float (float_scalar p) (with_Q noise_model 2)
      = Raise AttributeError
    ∧ @cross_params_loops string float (float_scalar p) 1 1 (with_Q noise_model 2)
      = Raise KeyError).
Proof.
  intros p.
  apply (@cross_params_loops_missing_key string float (float_scalar p)
           (with_Q noise_model 2) 1 1 1 {[ "noise" := Arr1 [0%float] ]});
    [reflexivity | simpl; lia | reflexivity | reflexivity | reflexivity].
Defined.

(** ** model.py: the parameter store *)

Section StoreFacts.
Context {D F : Type}.
Implicit Types self : model D F.

Lemma mapM_Ok_lookup {A B} (f : A → result B) (l : list A) (k : list B) :
  mapM f l = Ok k ↔ Forall2 (λ x y, f x = Ok y) l k.
Proof.
  revert k. induction l as [|x l IH]; intros k; simpl.
  - split; [intros [= <-]; constructor | by inversion 1].
  - destruct (f x) as [y|e] eqn:Hfx; simpl.
    + destruct (mapM f l) as [k'|e] eqn:Hl; simpl; unfold mret, result_ret.
      * split.
        -- intros [= <-]. constructor; [done|]. by apply IH.
        -- inversion 1 as [|? y' ? k'' Hy Hk]; subst.
           apply IH in Hk. congruence.
      * split; [done|]. inversion 1 as [|? y' ? k'' Hy Hk]; subst.
        apply IH in Hk. congruence.
    + split; [done|]. inversion 1; congruence.
Qed.

Lemma param_Ok self (q : nat) key A : param self q key = Ok A ↔ pval self q key = Some A.
Proof.
  unfold param, component, getkey, pval.
  destruct (params self !! q) as [c|]; simpl; [|done].
  destruct (c !! key); simpl; split; congruence.
Qed.

Lemma set_param_Ok (q : Z) key val self self' :
  set_param q key val self = Ok self' →
  0 ≤ q < Z.of_nat (length (params self))
  ∧ ∃ pq, params self !! Z.to_nat q = Some pq ∧ key ∈ dom pq
          ∧ self' = with_params self (<[Z.to_nat q := <[key := val]> pq]> (params self)).
Proof.
  intros Hset. pose proof (set_param_cases q key val self) as Hcases.
  by rewrite Hset in Hcases.
Qed.

Lemma pval_set_param (q : Z) key val self self' (q' : nat) key' :
  set_param q key val self = Ok self' →
  pval self' q' key'
  = if decide (q' = Z.to_nat q ∧ key' = key) then Some val else pval self q' key'.
Proof.
  intros (Hq & pq & Hpq & Hin & ->)%set_param_Ok. unfold pval. simpl.
  destruct (decide (q' = Z.to_nat q)) as [->|Hne].
  - rewrite list_lookup_insert_eq by lia. rewrite Hpq. simpl.
    destruct (decide (key' = key)) as [->|Hk].
    + rewrite decide_True by done. apply lookup_insert_eq.
    + rewrite decide_False by (intros [_ ?]; done). by apply lookup_insert_ne.
  - rewrite list_lookup_insert_ne by done.
    by rewrite decide_False by (intros [? _]; done).
Qed.

End StoreFacts.

(** X12: when [set_param(q, key, val)] returns, reading [params[q][key]]
    gives [val]; every other entry of every component is what it was; the
    store has the same number of components, each with the same keys; and
    [Q] and the fixed names are untouched. *)
Theorem set_param_read_back {D F : Type} (self self' : model D F)
    (q : Z) (key : string) (val : ndarray F) :
  set_param q key val self = Ok self' →
  pval self' (Z.to_nat q) key = Some val
  ∧ (∀ q' key', q' ≠ Z.to_nat q ∨ key' ≠ key → pval self' q' key' = pval self q' key')
  ∧ length (params self') = length (params self)
  ∧ (∀ q', dom <$> params self' !! q' = dom <$> params self !! q')
  ∧ Q self' = Q self ∧ fixed_params self' = fixed_params self.
Proof.
  intros Hset. split_and!.
  - rewrite (pval_set_param q key val self self' _ _ Hset). by rewrite decide_True.
  - intros q' key' Hne. rewrite (pval_set_param q key val self self' _ _ Hset).
    rewrite decide_False; [done|]. intros [-> ->]. by destruct Hne.
  - apply set_param_Ok in Hset as (_ & pq & _ & _ & ->). simpl. apply length_insert.
  - intros q'. apply set_param_Ok in Hset as (Hq & pq & Hpq & Hin & ->). simpl.
    destruct (decide (q' = Z.to_nat q)) as [->|Hne].
    + rewrite list_lookup_insert_eq by lia. rewrite Hpq. simpl. f_equal.
      rewrite dom_insert_L. apply subseteq_union_1_L. by apply singleton_subseteq_l.
    + by rewrite list_lookup_insert_ne.
  - by apply set_param_Ok in Hset as (_ & pq & _ & _ & ->).
  - by apply set_param_Ok in Hset as (_ & pq & _ & _ & ->).
Qed.

(** On [noise_model]: overwriting the magnitude of component [0]. *)
Lemma set_param_read_back_witness :
  ∃ self', set_param 0 "magnitude" (Arr1 [2%float]) noise_model = Ok self'
    ∧ pval self' 0 "magnitude" = Some (Arr1 [2%float])
    ∧ pval self' 0 "variance" = pval noise_model 0 "variance"
    ∧ length (params self') = 2%nat.
Proof.
  eexists. split; [reflexivity|].
  destruct (set_param_read_back noise_model _ 0 "magnitude" (Arr1 [2%float]) eq_refl)
    as (Hval & Hrest & Hlen & _).
  split; [exact Hval|]. split; [|exact Hlen].
  apply Hrest. right. discriminate.
Defined.

(** The list of the comprehension after a [set_param]. *)
Lemma across_list_after_set {D F : Type} (self self' : model D F)
    (q : Z) (key : string) (val : ndarray F) (across : list (ndarray F)) :
  set_param q key val self = Ok self' →
  across_list key self = Ok across →
  across_list key self' = Ok (<[Z.to_nat q := val]> across)
  ∧ ∀ key', key' ≠ key → across_list key' self' = across_list key' self.
Proof.
  intros Hset Hacross.
  assert (Q self' = Q self) as HQ.
  { by apply set_param_Ok in Hset as (_ & pq & _ & _ & ->). }
  unfold across_list in *. rewrite HQ. split.
  - apply mapM_Ok_lookup. apply mapM_Ok_lookup in Hacross.
    apply Forall2_same_length_lookup. split.
    + rewrite length_insert. by eapply Forall2_length.
    + intros k x y Hx Hy. apply lookup_seq in Hx as [-> Hk].
      apply param_Ok. rewrite (pval_set_param q key val self self' _ _ Hset).
      destruct (decide (k = Z.to_nat q)) as [->|Hne].
      * rewrite decide_True by done.
        rewrite list_lookup_insert_eq in Hy; [congruence|].
        apply lookup_lt_Some in Hy. by rewrite length_insert in Hy.
      * rewrite decide_False by (intros [? _]; done).
        rewrite list_lookup_insert_ne in Hy by done.
        apply param_Ok.
        apply (Forall2_lookup_lr (λ x y, param self x key = Ok y) _ _ k k y Hacross);
          [by apply lookup_seq | exact Hy].
  - intros key' Hne.
    assert (∀ k, param self' k key' = param self k key') as Hext.
    { intros k. unfold param, component, getkey.
      apply set_param_Ok in Hset as (Hq & pq & Hpq & _ & ->). simpl.
      destruct (decide (k = Z.to_nat q)) as [->|Hk].
      - rewrite list_lookup_insert_eq by lia. rewrite Hpq. simpl.
        by rewrite lookup_insert_ne.
      - by rewrite list_lookup_insert_ne. }
    clear Hacross. induction (Py.range (Q self)) as [|k ks IH]; [done|].
    change (mapM ?f (k :: ks)) with (y ← f k; l ← mapM f ks; mret (y :: l)).
    cbv beta. rewrite Hext. destruct (param self k key'); simpl; [|done].
    by rewrite IH.
Qed.

(** X13: if [_get_param_across(key)] returned the stacked array [across]
    and [set_param(q, key, val)] then succeeded, [_get_param_across(key)]
    afterwards returns [across] with entry [q] replaced by [val] when
    [val] has the shape of the other entries (or [q] is at or beyond [Q]),
    and raises [ValueError] when it has not: [set_param] accepts a value
    of any shape, [np.array] does not stack it.  [_get_param_across] of any
    other name is what it was. *)
Theorem get_param_across_after_set {D F : Type} (self self' : model D F)
    (q : Z) (key : string) (val : ndarray F) (across : list (ndarray F)) :
  set_param q key val self = Ok self' →
  _get_param_across key self = Ok across →
  _get_param_across key self'
  = (if same_shapes (<[Z.to_nat q := val]> across)
     then Ok (<[Z.to_nat q := val]> across) else Raise ValueError)
  ∧ ∀ key', key' ≠ key → _get_param_across key' self' = _get_param_across key' self.
Proof.
  intros Hset Hacross. unfold _get_param_across in *.
  destruct (across_list key self) as [l|] eqn:Hl; [|done].
  simpl in Hacross. unfold np_array in Hacross.
  destruct (same_shapes l); [|done]. injection Hacross as ->.
  destruct (across_list_after_set self self' q key val across Hset Hl) as [-> Hframe].
  split; [done|]. intros key' Hne. by rewrite Hframe.
Qed.

(** On [pair_model]: the magnitude of component [1] replaced by an array
    of the same shape, and by one of three entries. *)
Lemma get_param_across_after_set_witness :
  (∃ self', set_param 1 "magnitude" (Arr1 [5%float]) pair_model = Ok self'
     ∧ _get_param_across "magnitude" self' = Ok [Arr1 [1%float]; Arr1 [5%float]]
     ∧ _get_param_across "variance" self' = _get_param_across "variance" pair_model)
  ∧ (∃ self', set_param 1 "magnitude" (Arr1 [1; 2; 3]%float) pair_model = Ok self'
     ∧ _get_param_across "magnitude" self' = Raise ValueError).
Proof.
  split.
  - eexists. split; [reflexivity|].
    destruct (get_param_across_after_set pair_model _ 1 "magnitude" (Arr1 [5%float])
                [Arr1 [1%float]; Arr1 [3%float]] eq_refl eq_refl) as (Hkey & Hother).
    split; [exact Hkey|]. apply Hother. discriminate.
  - eexists. split; [reflexivity|].
    destruct (get_param_across_after_set pair_model _ 1 "magnitude" (Arr1 [1; 2; 3]%float)
                [Arr1 [1%float]; Arr1 [3%float]] eq_refl eq_refl) as (Hkey & _).
    exact Hkey.
Defined.

(** ** model.py: reading trained values back *)

Section UpdateFacts.
Context {D F : Type}.
Implicit Types self : model D F.
Variable int : string → result Z.

Lemma update_param_foreign key (val : ndarray F) self :
  (∀ a n name, split "/" key ≠ [a; "kern"; "kernels"; n; name]%string) →
  update_param int key val self = Ok self.
Proof.
  intros Hkey. unfold update_param.
  destruct (split "/" key) as [|a [|kern [|kernels [|n [|name [|]]]]]]; try done.
  destruct (decide _) as [[-> ->]|]; [|done]. by destruct (Hkey a n name).
Qed.

Lemma getitem_position {A} (l : list A) (q : Z) (x : A) :
  Py.getitem l q = Ok x →
  l !! position (length l) q = Some x
  ∧ (position (length l) q < length l)%nat
  ∧ (0 ≤ q → position (length l) q = Z.to_nat q).
Proof.
  unfold Py.getitem, position. intros Hget.
  assert (∀ k, of_option (l !! k) IndexError = Ok x → l !! k = Some x) as Hopt.
  { intros k. by destruct (l !! k); simpl; intros [= ->]. }
  destruct (0 <=? q) eqn:H0; simpl in Hget.
  - destruct (q <? Z.of_nat (length l)) eqn:Hlt.
    + apply Hopt in Hget. split_and!; [done| by eapply lookup_lt_Some | done].
    + apply Z.leb_le in H0. apply Z.ltb_ge in Hlt.
      destruct (- Z.of_nat (length l) <=? q); simpl in Hget; [|done].
      destruct (q <? 0) eqn:Hneg; [|done]. apply Z.ltb_lt in Hneg. lia.
  - apply Z.leb_gt in H0.
    destruct (- Z.of_nat (length l) <=? q); simpl in Hget; [|done].
    destruct (q <? 0); [|done]. apply Hopt in Hget.
    split_and!; [done| by eapply lookup_lt_Some | lia].
Qed.

End UpdateFacts.

(** X14: [_update_params] writes nothing for a trainable whose path is
    not of the form [<a>/kern/kernels/<q>/<name>] (the likelihood's
    variance, for one): when no key has that form the model comes back as
    it was, and [int] is never called. *)
Theorem update_params_skips_other_paths {D F : Type} (int : string → result Z)
    (trainables : list (string * ndarray F)) (self : model D F) :
  (∀ key val, (key, val) ∈ trainables →
     ∀ a n name, split "/" key ≠ [a; "kern"; "kernels"; n; name]%string) →
  _update_params int trainables self = Ok self.
Proof.
  unfold _update_params. induction trainables as [|[key val] rest IH]; intros Hkeys.
  - done.
  - simpl. rewrite update_param_foreign.
    + simpl. apply IH. intros key' val' Hin. apply (Hkeys key' val'). by right.
    + apply (Hkeys key val). by left.
Qed.

(** The likelihood variance GPflow reports beside the kernel parameters. *)
Lemma update_params_skips_other_paths_witness :
  _update_params (λ _, Raise ValueError)
    [("GPR-0/likelihood/variance"%string, Arr1 [0.5%float])] noise_model
  = Ok noise_model.
Proof.
  apply update_params_skips_other_paths.
  intros key val Hin a n name. apply list_elem_of_singleton in Hin.
  injection Hin as -> ->. vm_compute. discriminate.
Defined.

(** X15: for a trainable [<a>/kern/kernels/<n>/<name>] whose [n] reads as
    an index [q] of the store, [_update_params] stores the value under
    [params[q][name]].  It does so without the checks of [set_param]: it
    gives the result of [set_param(q, name, val)] when that call is
    allowed, creates the entry when component [q] has no such name (where
    [set_param] raises), and counts a negative [q] from the end of the
    store (where [set_param] raises as well). *)
Theorem update_params_writes {D F : Type} (int : string → result Z)
    (key a n name : string) (q : Z) (val : ndarray F)
    (pq : gmap string (ndarray F)) (self : model D F) :
  split "/" key = [a; "kern"; "kernels"; n; name]%string →
  int n = Ok q →
  Py.getitem (params self) q = Ok pq →
  ∃ self', _update_params int [(key, val)] self = Ok self'
    ∧ pval self' (position (length (params self)) q) name = Some val
    ∧ (0 ≤ q → name ∈ dom pq → set_param q name val self = Ok self')
    ∧ (q < 0 ∨ name ∉ dom pq → set_param q name val self = Raise Exception).
Proof.
  intros Hkey Hint Hget.
  destruct (getitem_position _ _ _ Hget) as (Hpos & Hlt & Hnat).
  eexists. split_and!.
  - unfold _update_params. simpl. unfold update_param. rewrite Hkey.
    rewrite decide_True by done. rewrite Hint. simpl. rewrite Hget. simpl. reflexivity.
  - unfold pval. simpl. rewrite list_lookup_insert_eq by done. simpl.
    apply lookup_insert_eq.
  - intros Hq Hin. unfold set_param.
    assert (q < Z.of_nat (length (params self))) as Hq' by (rewrite Hnat in Hlt by done; lia).
    replace (q <? 0) with false by (symmetry; apply Z.ltb_ge; lia).
    replace (Z.of_nat (length (params self)) <=? q) with false
      by (symmetry; apply Z.leb_gt; lia).
    simpl. rewrite Hget. simpl. rewrite decide_True by done. by rewrite Hnat.
  - intros Hbad. unfold set_param.
    destruct (q <? 0) eqn:Hneg; [done|]. apply Z.ltb_ge in Hneg. simpl.
    destruct (Z.of_nat (length (params self)) <=? q); [done|].
    rewrite Hget. simpl. destruct Hbad as [?|Hout]; [lia|]. by rewrite decide_False.
Qed.

(** On [noise_model]: a mean read back into component [0], and a name the
    component does not have yet. *)
Lemma update_params_writes_witness :
  (∃ self', _update_params int_digit
              [("GPR-0/kern/kernels/0/mean"%string, Arr2 1 [[2%float]])] noise_model = Ok self'
     ∧ pval self' 0 "mean" = Some (Arr2 1 [[2%float]]))
  ∧ (∃ self', _update_params int_digit
              [("GPR-0/kern/kernels/0/lengthscale"%string, Arr1 [2%float])] noise_model = Ok self'
     ∧ pval self' 0 "lengthscale" = Some (Arr1 [2%float])
     ∧ set_param 0 "lengthscale" (Arr1 [2%float]) noise_model = Raise Exception).
Proof.
  split.
  - destruct (update_params_writes int_digit "GPR-0/kern/kernels/0/mean" "GPR-0" "0" "mean"
                0 (Arr2 1 [[2%float]]) _ noise_model eq_refl eq_refl eq_refl)
      as (self' & Hrun & Hval & _).
    exists self'. by split.
  - destruct (update_params_writes int_digit "GPR-0/kern/kernels/0/lengthscale" "GPR-0" "0"
                "lengthscale" 0 (Arr1 [2%float]) _ noise_model eq_refl eq_refl eq_refl)
      as (self' & Hrun & Hval & _ & Hraise).
    exists self'. split_and!; [done|done|]. apply Hraise. right.
    vm_compute. discriminate.
Defined.

(** ** model.py: the fixed names *)

Section RemoveFacts.

Lemma occurrences_cons (x y : string) (l : list string) :
  occurrences x (y :: l) = ((if decide (y = x) then 1 else 0) + occurrences x l)%nat.
Proof.
  unfold occurrences. rewrite filter_cons. by destruct (decide (y = x)).
Qed.

Lemma remove_occurrences (x : string) (l : list string) :
  x ∈ l →
  ∃ l', Py.remove x l = Ok l'
    ∧ (occurrences x l' + 1 = occurrences x l)%nat
    ∧ ∀ y, y ≠ x → occurrences y l' = occurrences y l.
Proof.
  induction l as [|z l IH]; intros Hx; [by apply elem_of_nil in Hx|].
  simpl. destruct (decide (x = z)) as [<-|Hne].
  - exists l. split_and!; [done| |].
    + rewrite occurrences_cons, decide_True by done. lia.
    + intros y Hy. by rewrite occurrences_cons, decide_False.
  - apply elem_of_cons in Hx as [?|Hx]; [done|].
    destruct (IH Hx) as (l' & -> & Hone & Hrest). simpl.
    exists (z :: l'). split_and!; [done| |].
    + rewrite !occurrences_cons, decide_False by done. lia.
    + intros y Hy. rewrite !occurrences_cons. by rewrite (Hrest y Hy).
Qed.

Lemma occurrences_zero (x : string) (l : list string) :
  occurrences x l = 0%nat ↔ x ∉ l.
Proof.
  induction l as [|y l IH].
  - split; [intros _; apply not_elem_of_nil | done].
  - rewrite occurrences_cons, not_elem_of_cons.
    destruct (decide (y = x)) as [->|Hne].
    + split; [lia | by intros [? _]].
    + simpl. rewrite IH. split; [by split | by intros [_ ?]].
Qed.

End RemoveFacts.

(** X16: [unfix_params(key)] raises [ValueError] when [key] is not among
    the fixed names.  Otherwise it takes away one occurrence of [key] and
    leaves every other name, and the parameter store, alone: a name that
    was fixed twice is still fixed afterwards, and it becomes trainable
    again exactly when it was listed once. *)
Theorem unfix_params_removes_one {D F : Type} (key : string) (self : model D F) :
  (key ∉ fixed_params self → unfix_params key self = Raise ValueError)
  ∧ (key ∈ fixed_params self →
     ∃ self', unfix_params key self = Ok self'
       ∧ (occurrences key (fixed_params self') + 1
          = occurrences key (fixed_params self))%nat
       ∧ (∀ k, k ≠ key →
            occurrences k (fixed_params self') = occurrences k (fixed_params self))
       ∧ params self' = params self
       ∧ (trainable self' key = true ↔ occurrences key (fixed_params self) = 1%nat)).
Proof.
  unfold unfix_params. split.
  - intros Hout. by rewrite remove_absent.
  - intros Hin. destruct (remove_occurrences key _ Hin) as (fs & -> & Hone & Hrest).
    simpl. eexists. split_and!; [reflexivity|done|done|done|].
    unfold trainable. simpl. rewrite bool_decide_eq_true, <- occurrences_zero. lia.
Qed.

(** ** mosm.py: what the cross parameters depend on *)

Section Locality.
Context {D : Type} `{Scalar F}.
Implicit Types self : model D F.

Lemma for_each_ext {X S} (xs : list X) (f g : X → S → result S) (s : S) :
  (∀ x s, x ∈ xs → f x s = g x s) → Py.for_each xs f s = Py.for_each xs g s.
Proof.
  revert s. induction xs as [|x xs IH]; intros s Hfg; simpl; [done|].
  rewrite (Hfg x s) by (by left). destruct (g x s) as [s'|]; simpl; [|done].
  apply IH. intros y t Hy. apply Hfg. by right.
Qed.

Lemma cross_params_loops_ext self self' (m d : nat) :
  same_reads self self' → cross_params_loops m d self' = cross_params_loops m d self.
Proof using Type*.
  intros [HQ Hreads]. unfold cross_params_loops. rewrite HQ.
  destruct (Q self <? 0); [done|].
  apply for_each_ext. intros q cp [_ Hq]%elem_of_seq. simpl in Hq.
  assert (∀ key, key ∈ ["variance"; "mean"; "magnitude"; "phase"; "delay"]%string →
            param self' q key = param self q key) as Hkey.
  { intros key Hin. apply Hreads; [|done]. unfold Py.range in Hq. lia. }
  unfold component_body.
  rewrite (for_each_ext (seq 0 m)
             (λ i, Py.for_each (seq 0 m) (λ j, cross_body self' d q i j))
             (λ i, Py.for_each (seq 0 m) (λ j, cross_body self d q i j))).
  - destruct (Py.for_each _ _ cp) as [cp'|]; simpl; [|done].
    rewrite (Hkey "phase"%string) by set_solver.
    destruct (param self q "phase" ≫= Np.as1d) as [ph|]; simpl; [|done].
    destruct (set_plane m q _ _) as [ph'|]; simpl; [|done].
    apply for_each_ext. intros n cp'' _. unfold delay_body.
    by rewrite (Hkey "delay"%string) by set_solver.
  - intros i cp' _. apply for_each_ext. intros j cp'' _. unfold cross_body.
    rewrite (Hkey "variance"%string) by set_solver.
    rewrite (Hkey "mean"%string) by set_solver.
    by rewrite (Hkey "magnitude"%string) by set_solver.
Qed.

End Locality.

(** X17: for given [m] and [d], lines 253-290 of [get_cross_params] read
    only [Q] and the entries [variance], [mean], [magnitude], [phase] and
    [delay] of the first [Q] components.  A [set_param] on a later
    component (the noise, which [estimate_params] stores at index [Q]) or
    under another name leaves [Q] and the outcome of the loops, dictionary
    or exception, as they were. *)
Theorem cross_params_ignore_other_entries {D : Type} `{Scalar F}
    (self self' : model D F) (q : Z) (key : string) (val : ndarray F) (m d : nat) :
  set_param q key val self = Ok self' →
  Q self ≤ q ∨ key ∉ ["variance"; "mean"; "magnitude"; "phase"; "delay"]%string →
  Q self' = Q self
  ∧ cross_params_loops m d self' = cross_params_loops m d self.
Proof.
  intros Hset Hother.
  assert (same_reads self self') as Hsame.
  { split.
    - by apply set_param_Ok in Hset as (_ & pq & _ & _ & ->).
    - intros q' key' Hq' Hkey'.
      pose proof (pval_set_param q key val self self' q' key' Hset) as Hp.
      rewrite decide_False in Hp.
      + unfold param, component, getkey. unfold pval in Hp.
        apply set_param_Ok in Hset as (Hq & pq & Hpq & _ & ->). simpl in *.
        destruct (decide (q' = Z.to_nat q)) as [->|Hne].
        * rewrite list_lookup_insert_eq in Hp |- * by lia. rewrite Hpq in Hp |- *.
          simpl in *. by rewrite Hp.
        * by rewrite list_lookup_insert_ne.
      + intros [-> ->]. destruct Hother as [Hge|Hout]; [|done].
        apply set_param_Ok in Hset as (Hq & _). lia. }
  split; [by destruct Hsame | by apply cross_params_loops_ext].
Qed.

(** On [noise_model], in binary64 on any platform, for [m = 1] and
    [d = 1]: the statement that stores the noise. *)
Lemma cross_params_ignore_other_entries_witness :
  on_floats (λ p,
    ∃ self', estimate_params_noise (Arr1 [0.5%float]) noise_model = Ok self'
      ∧ Q self' = Q noise_model
      ∧ @cross_params_loops string float (float_scalar p) 1 1 self'
        = @cross_params_loops string float (float_scalar p) 1 1 noise_model).
Proof.
  intros p. eexists. split; [reflexivity|].
  apply (@cross_params_ignore_other_entries string float (float_scalar p)
           noise_model _ 1 "noise" (Arr1 [0.5%float]) 1 1);
    [reflexivity | left; simpl; lia].
Defined.

(** ** mosm.py: the cross-mean as stored *)

(** X18: for given [m] and [d], on a populated store, the cross-mean that
    lines 277-278 of [get_cross_params] store is
    [mean[i,j,n,q] = (var_i.dot(mu_j) + var_j.dot(mu_i)) / (var_i[n] + var_j[n])]:
    the two dot products run over all the input dimensions, so that one
    numerator serves every [n]. *)
Theorem cross_mean_stored {D : Type} `{Scalar F}
    (self : model D F) (m d q i j : nat) :
  well_shaped m d self = true →
  (q < Z.to_nat (Q self))%nat → (i < m)%nat → (j < m)%nat →
  ∃ cp, cross_params_loops m d self = Ok cp
    ∧ ∀ n, (n < d)%nat →
        mean cp i j n q
        = f_div (f_add (f_dot (variance_col self d q i) (mean_col self d q j))
                       (f_dot (variance_col self d q j) (mean_col self d q i)))
                (f_add (variance_of self q i n) (variance_of self q j n)).
Proof.
  intros Hshape Hq Hi Hj.
  destruct (cross_params_loops_agree self m d Hshape) as (cp & Hrun & Hcm & _).
  exists cp. split; [done|]. intros n Hn.
  by destruct (Hcm q i j n Hi Hj Hn Hq) as [_ ->].
Qed.

(** In binary64 on any platform, on [two_dim_model], channels [(0, 1)],
    for [m = 2] and [d = 2]: both dimensions get
    [(dot([1, 1], [3, 4]) + dot([1, 1], [1, 2])) / 2]. *)
Lemma cross_mean_stored_witness :
  on_floats (λ p,
    ∃ cp, @cross_params_loops string float (float_scalar p) 2 2 two_dim_model = Ok cp
      ∧ ∀ n, (n < 2)%nat →
          mean cp 0 1 n 0
          = PrimFloat.div (PrimFloat.add (np_dot p [1; 1]%float [3; 4]%float)
                                         (np_dot p [1; 1]%float [1; 2]%float)) 2)%nat.
Proof.
  intros p.
  destruct (@cross_mean_stored string float (float_scalar p) two_dim_model 2 2 0 0 1)%nat
    as (cp & Hrun & Hmean); [reflexivity | simpl; lia | lia | lia |].
  exists cp. split; [exact Hrun|]. intros n Hn. rewrite (Hmean n Hn).
  destruct n as [|[|n]]; [reflexivity | reflexivity | lia].
Defined.

(** X19: for a given [m] and [d = 1], in binary64 on a platform that
    keeps the laws: when neither [variance[q,i] * mean[q,j]] nor
    [variance[q,j] * mean[q,i]] is a zero, the cross-mean that lines
    277-278 store is the per-dimension formula
    [(variance[q,i] * mean[q,j] + variance[q,j] * mean[q,i])
       / (variance[q,i] + variance[q,j])]. *)
Theorem cross_mean_one_dimension {D : Type} (p : platform)
    (self : model D float) (m q i j : nat) :
  numpy_laws p →
  well_shaped m 1 self = true →
  (q < Z.to_nat (Q self))%nat → (i < m)%nat → (j < m)%nat →
  is_zero (PrimFloat.mul (@variance_of D float (float_scalar p) self q i 0)
                         (@mean_of D float (float_scalar p) self q j 0)) = false →
  is_zero (PrimFloat.mul (@variance_of D float (float_scalar p) self q j 0)
                         (@mean_of D float (float_scalar p) self q i 0)) = false →
  ∃ cp, @cross_params_loops D float (float_scalar p) m 1 self = Ok cp
    ∧ mean cp i j 0%nat q = @elementwise_mean D float (float_scalar p) self q i j 0.
Proof.
  intros Hp Hshape Hq Hi Hj Hij Hji.
  destruct (@cross_params_loops_agree D float (float_scalar p) self m 1 Hshape)
    as (cp & Hrun & Hcm & _).
  exists cp. split; [done|].
  destruct (Hcm q i j 0%nat Hi Hj ltac:(lia) Hq) as [_ ->].
  unfold mean_at, elementwise_mean, var_dot_mean, variance_col, mean_col, sv_at.
  simpl fmap. change (f_dot ?a ?b) with (np_dot p a b).
  by rewrite !(dot_single p Hp).
Qed.

(** On [twin_model], channels [(0, 1)], for [m = 2]:
    [(1 * 1 + 2 * 1) / (1 + 2) = 1]. *)
Lemma cross_mean_one_dimension_witness :
  on_numpy (λ p,
    ∃ cp, @cross_params_loops string float (float_scalar p) 2 1 twin_model = Ok cp
      ∧ mean cp 0%nat 1%nat 0%nat 0%nat = 1%float).
Proof.
  apply on_numpy_intro. intros p Hp.
  destruct (cross_mean_one_dimension p twin_model 2 0 0 1 Hp)
    as (cp & Hrun & Hmean); [reflexivity | simpl; lia | lia | lia | reflexivity
                             | reflexivity |].
  exists cp. split; [exact Hrun|]. by rewrite Hmean.
Defined.

(** ** dataset.py: looking channels up *)

Section LookupFacts.
Context `{Channel D}.
Implicit Types self : DataSet D.

Lemma find_name_first (s : string) (cs : list D) (c : D) :
  find_name s cs = Some c ↔
  ∃ k, cs !! k = Some c ∧ channel_name c = Some s
       ∧ ∀ k' c', (k' < k)%nat → cs !! k' = Some c' → channel_name c' ≠ Some s.
Proof.
  revert c. induction cs as [|c0 cs IH]; intros c; simpl.
  - split; [done|]. by intros (k & Hk & _).
  - destruct (decide (channel_name c0 = Some s)) as [Hc0|Hc0].
    + split.
      * intros [= <-]. exists 0%nat. split_and!; [done|done|]. intros k' c' Hlt. lia.
      * intros ([|k] & Hk & Hname & Hfirst).
        -- simpl in Hk. congruence.
        -- destruct (Hfirst 0%nat c0); [lia|done|done].
    + rewrite IH. split.
      * intros (k & Hk & Hname & Hfirst). exists (S k). split_and!; [done|done|].
        intros [|k'] c' Hlt Hk'; simpl in Hk'.
        -- by injection Hk' as <-.
        -- apply (Hfirst k' c'); [lia|done].
      * intros ([|k] & Hk & Hname & Hfirst); simpl in Hk.
        -- injection Hk as ->. done.
        -- exists k. split_and!; [done|done|]. intros k' c' Hlt Hk'.
           apply (Hfirst (S k') c'); [lia|done].
Qed.

Lemma find_name_none (s : string) (cs : list D) :
  find_name s cs = None ↔ Some s ∉ channel_name <$> cs.
Proof.
  induction cs as [|c0 cs IH]; simpl.
  - split; [intros _; apply not_elem_of_nil | done].
  - rewrite not_elem_of_cons. destruct (decide (channel_name c0 = Some s)) as [Hc0|Hc0].
    + split; [done|]. intros [Hne _]. by destruct Hne.
    + rewrite IH. split; [intros ?; by split | by intros [_ ?]].
Qed.

Lemma find_name_index (s : string) (cs : list D) (c : D) :
  find_name s cs = Some c ↔
  ∃ k, PyList.index (Some s) (channel_name <$> cs) = Ok k ∧ cs !! k = Some c.
Proof.
  revert c. induction cs as [|c0 cs IH]; intros c.
  - simpl. split; [done|]. by intros (k & Hk & _).
  - rewrite fmap_cons. simpl.
    destruct (decide (channel_name c0 = Some s)) as [Hc0|Hc0].
    + split.
      * intros [= <-]. by exists 0%nat.
      * intros (k & [= <-] & Hk). done.
    + rewrite IH. split.
      * intros (k & -> & Hk). by exists (S k).
      * intros (k & Hidx & Hk).
        destruct (PyList.index (Some s) (channel_name <$> cs)) as [k0|]; [|done].
        simpl in Hidx. injection Hidx as <-. by exists k0.
Qed.

Lemma index_absent (s : string) (names : list (option string)) :
  Some s ∉ names → PyList.index (Some s) names = Raise ValueError.
Proof.
  induction names as [|y names IH]; intros Hout; simpl; [done|].
  apply not_elem_of_cons in Hout as [Hne Hout].
  rewrite decide_False by done. by rewrite IH.
Qed.

Lemma getitem_lookup (cs : list D) (k : nat) (c : D) :
  cs !! k = Some c → Py.getitem cs (Z.of_nat k) = Ok c.
Proof.
  intros Hk. rewrite getitem_nonneg.
  - by rewrite Nat2Z.id, Hk.
  - apply lookup_lt_Some in Hk. lia.
Qed.

Lemma getitem_Ok_lookup (cs : list D) (k : nat) (c : D) :
  Py.getitem cs (Z.of_nat k) = Ok c → cs !! k = Some c.
Proof.
  intros Hget. apply getitem_position in Hget as (Hk & _ & Hpos).
  by rewrite Hpos, Nat2Z.id in Hk by lia.
Qed.

Lemma getitem_too_large (cs : list D) (i : Z) :
  Z.of_nat (length cs) ≤ i → Py.getitem cs i = Raise IndexError.
Proof.
  intros Hi. unfold Py.getitem.
  destruct (Z.leb_spec 0 i); [|lia].
  destruct (Z.ltb_spec i (Z.of_nat (length cs))); [lia|]. simpl.
  destruct (Z.ltb_spec i 0); [lia|]. by rewrite andb_false_r.
Qed.

Lemma getitem_too_small (cs : list D) (i : Z) :
  i < - Z.of_nat (length cs) → Py.getitem cs i = Raise IndexError.
Proof.
  intros Hi. unfold Py.getitem.
  destruct (Z.leb_spec 0 i); [lia|]. simpl.
  by destruct (Z.leb_spec (- Z.of_nat (length cs)) i); [lia|].
Qed.

End LookupFacts.

(** X21: [DataSet.get] with a name returns the first channel, in channel
    order, whose [name] is that string.  When no channel has the name the
    call raises [TypeError], not the [ValueError] its last line names: the
    message is formatted with [%d].  An integer below [-len] raises
    [IndexError]. *)
Theorem get_by_name_first_match `{Channel D} (self : DataSet D) (s : string) :
  (∀ c, get self (IStr s) = Ok c ↔
     ∃ k, channels self !! k = Some c ∧ channel_name c = Some s
          ∧ ∀ k' c', (k' < k)%nat → channels self !! k' = Some c' →
              channel_name c' ≠ Some s)
  ∧ (Some s ∉ get_names self ↔ get self (IStr s) = Raise TypeError)
  ∧ (∀ i, i < - get_output_dims self → get self (IInt i) = Raise IndexError).
Proof.
  split_and!.
  - intros c. rewrite <- find_name_first. unfold get.
    destruct (find_name s (channels self)); split; congruence.
  - unfold get_names. rewrite <- find_name_none. unfold get.
    destruct (find_name s (channels self)); split; congruence.
  - intros i Hi. unfold get, get_output_dims in *.
    destruct (Z.ltb_spec i (Z.of_nat (length (channels self)))); [|lia].
    by apply getitem_too_small.
Qed.

(** X22: [dataset[key]] and [dataset.get(key)] return the same channel
    whenever either returns one, for a name and for an integer alike.
    They differ in the exception: for a name no channel has,
    [__getitem__] raises [ValueError] and [get] raises [TypeError]; for an
    integer at or beyond the number of channels, [__getitem__] raises
    [IndexError] and [get] raises [ValueError].  ([get_name()] is taken to
    return the [name] attribute.) *)
Theorem getitem_agrees_with_get `{Channel D} (self : DataSet D) :
  (∀ key c, __getitem__ self key = Ok c ↔ get self key = Ok c)
  ∧ (∀ s, Some s ∉ get_names self →
       __getitem__ self (IStr s) = Raise ValueError
       ∧ get self (IStr s) = Raise TypeError)
  ∧ (∀ i, get_output_dims self ≤ i →
       __getitem__ self (IInt i) = Raise IndexError
       ∧ get self (IInt i) = Raise ValueError).
Proof.
  split_and!.
  - intros [i|s] c; simpl.
    + destruct (Z.ltb_spec i (Z.of_nat (length (channels self)))); [done|].
      rewrite getitem_too_large by done. split; congruence.
    + unfold get_names.
      destruct (find_name s (channels self)) as [c0|] eqn:Hfind.
      * apply find_name_index in Hfind as (k & -> & Hk). simpl.
        rewrite (getitem_lookup _ _ _ Hk). done.
      * apply find_name_none in Hfind. rewrite index_absent by done. done.
  - intros s Hout. simpl. rewrite index_absent by done. split; [done|].
    unfold get_names in Hout. apply find_name_none in Hout. by rewrite Hout.
  - intros i Hi. unfold get_output_dims in Hi. simpl.
    rewrite getitem_too_large by done. split; [done|].
    by destruct (Z.ltb_spec i (Z.of_nat (length (channels self)))); [lia|].
Qed.

(** ** dataset.py: replacing and adding channels *)

Section BuildFacts.
Context {A : Type} `{Channel D}.
Implicit Types self : DataSet D.

Lemma position_lt (len : nat) (i : Z) :
  - Z.of_nat len ≤ i < Z.of_nat len → (position len i < len)%nat.
Proof. unfold position. intros Hi. destruct (Z.leb_spec 0 i); lia. Qed.

Lemma getitem_at_position (cs : list D) (i : Z) :
  - Z.of_nat (length cs) ≤ i < Z.of_nat (length cs) →
  Py.getitem cs i = of_option (cs !! position (length cs) i) IndexError.
Proof.
  intros Hi. unfold position. destruct (Z.leb_spec 0 i).
  - by rewrite getitem_nonneg by lia.
  - by rewrite getitem_negative by lia.
Qed.

Lemma find_name_app (s : string) (cs new : list D) (c : D) :
  find_name s cs = Some c → find_name s (cs ++ new) = Some c.
Proof.
  induction cs as [|c0 cs IH]; simpl; [done|].
  by destruct (decide (channel_name c0 = Some s)).
Qed.

Lemma append_app (set_name : string → D → D) (arg : pyval A D) self self' :
  append set_name arg self = Ok self' → ∃ new, channels self' = channels self ++ new.
Proof.
  destruct arg as [a|c|cs|l|kv|]; simpl; try done.
  - intros [= <-]. by eexists.
  - intros [= <-]. by eexists.
  - destruct (forallb is_data l); [|done]. intros [= <-]. by eexists.
  - destruct (forallb _ kv); [|done]. intros [= <-]. by eexists.
Qed.

Lemma omap_arrays (l : list (pyval A D)) :
  forallb is_array l = true → length (omap as_array l) = length l.
Proof.
  induction l as [|v l IH]; [done|]. simpl. intros [Hv Hl]%andb_true_iff.
  destruct v; try done. simpl. f_equal. by apply IH.
Qed.

Lemma for_each_append_length {X} (make : X → result D) (items : list X) self self' :
  Py.for_each items
    (λ item self, c ← make item; Ok {| channels := channels self ++ [c] |}) self
    = Ok self' →
  length (channels self') = (length (channels self) + length items)%nat.
Proof.
  revert self. induction items as [|item items IH]; intros self; simpl.
  - intros [= <-]. lia.
  - destruct (make item) as [c|]; simpl; [|done]. intros Hrest.
    apply IH in Hrest. simpl in Hrest. rewrite length_app in Hrest. simpl in Hrest. lia.
Qed.

End BuildFacts.

(** X23: [dataset[i] = channel] with an integer [i] in [[-len, len)]
    replaces the channel at that position: [dataset[i]] then returns the
    new channel, the number of channels is unchanged and so is every other
    position.  Outside that range it raises [IndexError] (an index equal
    to the length does not append).  A [DataSet] holding one channel is
    stored as that channel; one holding none or several is refused. *)
Theorem setitem_then_getitem {A : Type} `{Channel D} (self : DataSet D) (i : Z) (c : D) :
  (- get_output_dims self ≤ i < get_output_dims self →
     ∃ self', __setitem__ (IInt i) (VData (A:=A) c) self = Ok self'
       ∧ __getitem__ self' (IInt i) = Ok c
       ∧ get_output_dims self' = get_output_dims self
       ∧ ∀ k, k ≠ position (length (channels self)) i →
           channels self' !! k = channels self !! k)
  ∧ (¬ (- get_output_dims self ≤ i < get_output_dims self) →
     __setitem__ (IInt i) (VData (A:=A) c) self = Raise IndexError)
  ∧ __setitem__ (IInt i) (VDataSet (A:=A) [c]) self
    = __setitem__ (IInt i) (VData (A:=A) c) self
  ∧ (∀ cs, length cs ≠ 1%nat →
       __setitem__ (IInt i) (VDataSet (A:=A) cs) self = Raise Exception).
Proof.
  unfold get_output_dims. split_and!.
  - intros Hi. unfold __setitem__, assign_channel, PyList.setitem.
    destruct (Z.leb_spec (- Z.of_nat (length (channels self))) i); [|lia].
    destruct (Z.ltb_spec i (Z.of_nat (length (channels self)))); [|lia].
    simpl. eexists. split_and!; [reflexivity| | |].
    + simpl. rewrite getitem_at_position by (rewrite length_insert; lia).
      rewrite length_insert.
      by rewrite list_lookup_insert_eq by (by apply position_lt).
    + simpl. by rewrite length_insert.
    + intros k Hk. simpl. by rewrite list_lookup_insert_ne.
  - intros Hi. unfold __setitem__, assign_channel, PyList.setitem.
    destruct (Z.leb_spec (- Z.of_nat (length (channels self))) i); [|done].
    destruct (Z.ltb_spec i (Z.of_nat (length (channels self)))); [lia|done].
  - done.
  - intros cs Hcs. unfold __setitem__. by rewrite decide_False.
Qed.

(** On three channels: the last one replaced through index [-1]. *)
Lemma setitem_then_getitem_witness :
  ∃ self', __setitem__ (IInt (-1)) (VData (A:=unit) "D"%string)
             {| channels := ["A"; "B"; "C"]%string |} = Ok self'
    ∧ __getitem__ self' (IInt (-1)) = Ok "D"%string
    ∧ channels self' !! 0%nat = Some "A"%string.
Proof.
  destruct (setitem_then_getitem (A:=unit) {| channels := ["A"; "B"; "C"]%string |}
              (-1) "D"%string) as [Hin _].
  destruct Hin as (self' & Hset & Hget & _ & Hrest); [unfold get_output_dims; simpl; lia|].
  exists self'. split_and!; [done|done|]. by rewrite Hrest.
Defined.

(** X24: when [append] returns for an argument that is not a dictionary
    (a [Data] object, another [DataSet] or a list of [Data] objects), the
    channels that were there come first, unchanged and in their order,
    followed by the new ones.  A non-negative index that was valid, and a
    name that resolved, still give the same channel through [get]: a new
    channel carrying an old name is shadowed.  (A dictionary is left out:
    it renames its values in place, also where the data set holds them
    already.) *)
Theorem append_keeps_channels {A : Type} `{Channel D} (set_name : string → D → D)
    (arg : pyval A D) (self self' : DataSet D) :
  is_dict arg = false →
  append set_name arg self = Ok self' →
  (∃ new, channels self' = channels self ++ new)
  ∧ (∀ i, 0 ≤ i < get_output_dims self → get self' (IInt i) = get self (IInt i))
  ∧ (∀ s c, get self (IStr s) = Ok c → get self' (IStr s) = Ok c).
Proof.
  intros _ [new Hnew]%append_app. split_and!.
  - by exists new.
  - intros i Hi. unfold get, get_output_dims in *. rewrite Hnew, length_app.
    destruct (Z.ltb_spec i (Z.of_nat (length (channels self)))); [|lia].
    destruct (Z.ltb_spec i (Z.of_nat (length (channels self) + length new))); [|lia].
    rewrite !getitem_nonneg by (rewrite ?length_app; lia).
    by rewrite lookup_app_l by lia.
  - intros s c. unfold get. rewrite Hnew.
    destruct (find_name s (channels self)) as [c0|] eqn:Hfind; [|done].
    intros [= ->]. by rewrite (find_name_app s _ new c Hfind).
Qed.

(** Appending a list of two channels, one of them named as an old one. *)
Lemma append_keeps_channels_witness :
  ∃ self', append (A:=unit) (λ k _, k)
             (VList [VData "B"; VData "A"]%string) {| channels := ["A"; "B"]%string |}
           = Ok self'
    ∧ channels self' = ["A"; "B"; "B"; "A"]%string
    ∧ get self' (IInt 1) = Ok "B"%string.
Proof.
  eexists. split; [reflexivity|]. split; [reflexivity|].
  destruct (append_keeps_channels (A:=unit) (λ k _, k)
              (VList [VData "B"; VData "A"]%string) {| channels := ["A"; "B"]%string |}
              _ eq_refl eq_refl) as (_ & Hidx & _).
  rewrite Hidx; [reflexivity | unfold get_output_dims; simpl; lia].
Defined.

(** X26: [DataSet(x, [y1, ..., yn], names=...)] and
    [DataSet([x1, ..., xn], [y1, ..., yn], names=...)] draw names and
    series together with [zip]: when the call returns, the data set holds
    as many channels as the shorter of the two, the remaining series being
    dropped without an error.  With [names] left out, or a single string,
    that is one channel at most, however many series were given. *)
Theorem DataSet_init_zip_truncates {A : Type} `{Channel D}
    (set_name : string → D → D) (Data : A → A → option string → result D)
    (array_items : A → result (list A))
    (arg0 : pyval A D) (ys : list (pyval A D))
    (names : option (string + list (option string))) (self : DataSet D) :
  forallb is_array ys = true →
  is_array arg0 = true
  ∨ (∃ xs, arg0 = VList xs ∧ forallb is_array xs = true ∧ length xs = length ys) →
  DataSet_init set_name Data array_items [arg0; VList ys] names = Ok self →
  length (channels self) = (length (names_list names) `min` length ys)%nat
  ∧ (match names with Some (inr _) => True | _ => (length (channels self) ≤ 1)%nat end).
Proof.
  intros Hys Harg0 Hinit.
  assert (length (channels self) = (length (names_list names) `min` length ys)%nat) as Hlen.
  { unfold DataSet_init in Hinit. simpl in Hinit. rewrite Hys in Hinit. simpl in Hinit.
    destruct Harg0 as [Harr|(xs & -> & Hxs & Hlen)].
    - destruct arg0 as [x| | | | |]; try done. simpl in Hinit.
      apply (for_each_append_length (λ item, Data x item.2 item.1)) in Hinit.
      simpl in Hinit. by rewrite Hinit, length_zip, omap_arrays.
    - rewrite Hxs, bool_decide_eq_true_2 in Hinit by done. simpl in Hinit.
      apply (for_each_append_length (λ item, Data item.2.1 item.2.2 item.1)) in Hinit.
      simpl in Hinit. rewrite Hinit, !length_zip, !omap_arrays by done.
      by rewrite Hlen, Nat.min_id. }
  split; [done|].
  destruct names as [[s|l]|]; [|done|]; rewrite Hlen; apply Nat.le_min_l.
Qed.

(** Three series without [names]: only the first becomes a channel. *)
Lemma DataSet_init_zip_truncates_witness :
  DataSet_init rename new_series (λ a, Ok ((λ v, [v]) <$> a))
    [VList [VArray [0; 1]; VArray [0; 1]; VArray [0; 1]];
     VList [VArray [5; 6]; VArray [7; 8]; VArray [9; 9]]] None
  = Ok {| channels := [Series None [0; 1] [5; 6]] |}
  ∧ length (channels {| channels := [Series None [0; 1] [5; 6]] |}) = (1 `min` 3)%nat.
Proof.
  split; [reflexivity|].
  apply (DataSet_init_zip_truncates rename new_series (λ a, Ok ((λ v, [v]) <$> a))
           (VList [VArray [0; 1]; VArray [0; 1]; VArray [0; 1]])
           [VArray [5; 6]; VArray [7; 8]; VArray [9; 9]] None
           {| channels := [Series None [0; 1] [5; 6]] |}).
  - reflexivity.
  - right. eexists. split; [reflexivity|]. split; reflexivity.
  - reflexivity.
Defined.

(** ** dataset.py: predictions *)

Section PredictionFacts.
Context {F D : Type}.

Lemma for_each_seq_partial {St} (I : nat → St → Prop) (k : nat)
    (body : nat → St → result St) (s s' : St) :
  I 0%nat s →
  (∀ x s s', (x < k)%nat → I x s → body x s = Ok s' → I (S x) s') →
  Py.for_each (seq 0 k) body s = Ok s' → I k s'.
Proof.
  intros H0 Hstep.
  assert (∀ n a s, (a + n = k)%nat → I a s →
            Py.for_each (seq a n) body s = Ok s' → I k s') as Hgen.
  { induction n as [|n IH]; intros a s0 Hk Ha; simpl.
    - intros [= <-]. by replace k with a by lia.
    - destruct (body a s0) as [s1|] eqn:Hbody; simpl; [|done].
      apply IH; [lia|]. apply (Hstep a s0 s1); [lia|done|done]. }
  by apply (Hgen k 0%nat s).
Qed.

Lemma sum_list_take_S (N : list nat) (idx n : nat) :
  N !! idx = Some n → sum_list (take (S idx) N) = (sum_list (take idx N) + n)%nat.
Proof.
  revert idx. induction N as [|n0 N IH]; intros [|idx] Hidx; simpl in *; try done.
  - injection Hidx as ->. lia.
  - rewrite (IH idx Hidx). lia.
Qed.

Lemma slices_tile {X} (N : list nat) (a : list X) (off : nat) :
  concat (zip_with (λ idx n, slice a (off + sum_list (take idx N)) n)
            (seq 0 (length N)) N)
  = slice a off (sum_list N).
Proof.
  revert off. induction N as [|n N IH]; intros off.
  - done.
  - cbn [length seq zip_with concat]. rewrite <- fmap_S_seq.
    rewrite zip_with_fmap_l. simpl.
    replace (off + 0)%nat with off by lia.
    rewrite (zip_with_ext _ (λ idx m, slice a ((off + n) + sum_list (take idx N)) m)
               (seq 0 (length N)) (seq 0 (length N)) N N); [|intros idx m|done|done].
    + rewrite IH. unfold slice. by rewrite <- take_take_drop, drop_drop.
    + f_equal. lia.
Qed.

End PredictionFacts.

(** X27: [_from_kernel_prediction] deals the predicted values out in
    channel order.  It raises [ValueError] when [mu] and [var] differ in
    length or when the channels' prediction points do not add up to that
    length.  When it returns, channel [idx] has received, through
    [set_prediction], the [N[idx]] values that follow those of the
    channels before it; these pieces put end to end are [mu] (and [var]),
    so that every value goes to exactly one channel; and the number of
    channels is unchanged. *)
Theorem from_kernel_prediction_deals_out {F D : Type}
    (pred_len : D → result nat)
    (set_prediction : string → list F → list F → D → result D)
    (name : string) (mu var : list F) (self : DataSet D) (N : list nat) :
  mapM pred_len (channels self) = Ok N →
  (length mu ≠ length var ∨ sum_list N ≠ length mu →
     _from_kernel_prediction pred_len set_prediction name mu var self = Raise ValueError)
  ∧ (∀ self',
       _from_kernel_prediction pred_len set_prediction name mu var self = Ok self' →
       length (channels self') = length (channels self)
       ∧ (∀ idx c n, channels self !! idx = Some c → N !! idx = Some n →
            ∃ c', channels self' !! idx = Some c'
              ∧ set_prediction name (slice mu (sum_list (take idx N)) n)
                  (slice var (sum_list (take idx N)) n) c = Ok c')
       ∧ concat (zip_with (λ idx n, slice mu (sum_list (take idx N)) n)
                   (seq 0 (length N)) N) = mu
       ∧ concat (zip_with (λ idx n, slice var (sum_list (take idx N)) n)
                   (seq 0 (length N)) N) = var).
Proof.
  intros HN. unfold _from_kernel_prediction. rewrite HN. simpl. split.
  - intros Hbad. by rewrite decide_True.
  - intros self'. destruct (decide _) as [|Hgood]; [done|].
    assert (length mu = length var) as Hlen.
    { destruct (decide (length mu = length var)); [done|]. destruct Hgood. by left. }
    assert (sum_list N = length mu) as Hsum.
    { destruct (decide (sum_list N = length mu)); [done|]. destruct Hgood. by right. }
    destruct (Py.for_each _ _ _) as [st|] eqn:Hloop; simpl; [|done].
    intros [= <-]. simpl.
    pose (I := λ (k : nat) (st : list D * nat),
      st.2 = sum_list (take k N)
      ∧ length st.1 = length (channels self)
      ∧ (∀ idx, (k ≤ idx)%nat → st.1 !! idx = channels self !! idx)
      ∧ (∀ idx c n, (idx < k)%nat → channels self !! idx = Some c → N !! idx = Some n →
           ∃ c', st.1 !! idx = Some c'
             ∧ set_prediction name (slice mu (sum_list (take idx N)) n)
                 (slice var (sum_list (take idx N)) n) c = Ok c')).
    assert (I (length (channels self)) st) as (Hoff & Hsame & _ & Hdone).
    { eapply (for_each_seq_partial I); [| |exact Hloop].
      - unfold I. simpl. split_and!; [done|done|done|]. intros; lia.
      - intros k [cs off] [cs' off'] Hk (Hoff & Hsame & Hlater & Hdone) Hbody.
        simpl in Hoff, Hsame, Hlater, Hdone, Hbody.
        destruct (N !! k) as [n|] eqn:HNk; simpl in Hbody; [|done].
        destruct (cs !! k) as [c|] eqn:Hck; simpl in Hbody; [|done].
        destruct (set_prediction name _ _ c) as [c'|] eqn:Hset; simpl in Hbody; [|done].
        injection Hbody as <- <-. unfold I. simpl. split_and!.
        + rewrite (sum_list_take_S N k n HNk). by rewrite Hoff.
        + by rewrite length_insert.
        + intros idx Hidx. rewrite list_lookup_insert_ne by lia. apply Hlater. lia.
        + intros idx c0 n0 Hidx Hc0 Hn0. destruct (decide (idx = k)) as [->|Hne].
          * exists c'. rewrite list_lookup_insert_eq by lia. split; [done|].
            rewrite Hlater in Hck by lia. rewrite Hc0 in Hck. injection Hck as ->.
            rewrite HNk in Hn0. injection Hn0 as <-. by rewrite <- Hoff.
          * rewrite list_lookup_insert_ne by done. apply Hdone; [lia|done|done]. }
    assert (length N = length (channels self)) as HlenN.
    { apply mapM_Ok_lookup in HN. symmetry. by eapply Forall2_length. }
    split_and!.
    + done.
    + intros idx c n Hc Hn. apply Hdone; [|done|done]. by eapply lookup_lt_Some.
    + pose proof (slices_tile N mu 0) as Htile. simpl in Htile. rewrite Htile.
      unfold slice. rewrite drop_0, Hsum. apply take_ge. lia.
    + pose proof (slices_tile N var 0) as Htile. simpl in Htile. rewrite Htile.
      unfold slice. rewrite drop_0, Hsum, Hlen. apply take_ge. lia.
Qed.

(** Two channels with two and one prediction points. *)
Lemma from_kernel_prediction_deals_out_witness :
  _from_kernel_prediction (λ c, Ok (length (series_x c))) store_prediction "MOSM"
    [10; 20; 30] [1; 2; 3]
    {| channels := [Series (Some "A"%string) [0; 1] []; Series (Some "B"%string) [5] []] |}
  = Ok {| channels := [Series (Some "A"%string) [0; 1] [10; 20];
                       Series (Some "B"%string) [5] [30]] |}
  ∧ _from_kernel_prediction (λ c, Ok (length (series_x c))) store_prediction "MOSM"
      [10; 20] [1; 2]
      {| channels := [Series (Some "A"%string) [0; 1] []; Series (Some "B"%string) [5] []] |}
    = Raise ValueError.
Proof.
  split; [reflexivity|].
  apply (from_kernel_prediction_deals_out (λ c, Ok (length (series_x c))) store_prediction
           "MOSM" [10; 20] [1; 2]
           {| channels := [Series (Some "A"%string) [0; 1] [];
                           Series (Some "B"%string) [5] []] |}
           [2; 1]%nat eq_refl).
  right. simpl. lia.
Defined.
